(** * Conversational command layer of the CRM bot (app/ai/voice_ai_manager.py)

    Shallow embedding of the intent detector, the entity extractor, the
    transcription-quality heuristic, the per-user context store and the
    dialogue orchestrator ([VoiceAIManager.process_text]).

    Python strings are sequences of code points: they are modelled as
    [list Z].  Literals are written as UTF-8 Rocq strings and decoded by
    [py], which also reads the two characters [\n] as a newline, as the
    Python literals do. *)

From Stdlib Require Import ZArith Bool List String Ascii Lia.
From stdpp Require Import base gmap list.

Open Scope Z_scope.
Import ListNotations.

(* ------------------------------------------------------------------ *)
(** ** Python strings *)

Abbreviation pystr := (list Z).

Definition byte (a : ascii) : Z := Z.of_N (N_of_ascii a).

(** UTF-8 decoding of a Rocq string literal into code points. *)
Fixpoint utf8_decode (l : list ascii) : pystr :=
  match l with
  | [] => []
  | b0 :: r =>
      let n0 := byte b0 in
      if n0 <? 128 then
        if n0 =? 92 then
          match r with
          | b1 :: r' => if byte b1 =? 110 then 10 :: utf8_decode r'
                        else 92 :: utf8_decode r
          | [] => [92]
          end
        else n0 :: utf8_decode r
      else if n0 <? 224 then
        match r with
        | b1 :: r' => ((n0 - 192) * 64 + (byte b1 - 128)) :: utf8_decode r'
        | [] => []
        end
      else if n0 <? 240 then
        match r with
        | b1 :: b2 :: r' =>
            ((n0 - 224) * 4096 + (byte b1 - 128) * 64 + (byte b2 - 128))
              :: utf8_decode r'
        | _ => []
        end
      else
        match r with
        | b1 :: b2 :: b3 :: r' =>
            ((n0 - 240) * 262144 + (byte b1 - 128) * 4096
             + (byte b2 - 128) * 64 + (byte b3 - 128)) :: utf8_decode r'
        | _ => []
        end
  end.

Definition py (s : string) : pystr := utf8_decode (list_ascii_of_string s).

(** [str.lower] per code point: Basic Latin, Latin-1 and the Cyrillic
    blocks (U+0400..U+052F), which cover both languages of the command
    vocabulary; other code points are left unchanged. *)
Definition lower_cp (c : Z) : Z :=
  if (65 <=? c) && (c <=? 90) then c + 32
  else if (192 <=? c) && (c <=? 222) && negb (c =? 215) then c + 32
  else if (1040 <=? c) && (c <=? 1071) then c + 32
  else if (1024 <=? c) && (c <=? 1039) then c + 80
  else if (1120 <=? c) && (c <=? 1153) && Z.even c then c + 1
  else if (1162 <=? c) && (c <=? 1215) && Z.even c then c + 1
  else if c =? 1216 then 1231
  else if (1217 <=? c) && (c <=? 1230) && Z.odd c then c + 1
  else if (1232 <=? c) && (c <=? 1327) && Z.even c then c + 1
  else c.

Definition lower (s : pystr) : pystr := map lower_cp s.

(** [str.isspace] (also the class [\s] of [re] on str patterns). *)
Definition is_space (c : Z) : bool :=
  ((9 <=? c) && (c <=? 13)) || ((28 <=? c) && (c <=? 32)) || (c =? 133)
  || (c =? 160) || (c =? 5760) || ((8192 <=? c) && (c <=? 8202))
  || (c =? 8232) || (c =? 8233) || (c =? 8239) || (c =? 8287) || (c =? 12288).

Definition is_digit (c : Z) : bool := (48 <=? c) && (c <=? 57).

(** [\w]: alphanumeric or underscore, on Latin (U+0000..U+024F) and
    Cyrillic (U+0400..U+052F) code points. *)
Definition is_word (c : Z) : bool :=
  is_digit c || ((65 <=? c) && (c <=? 90)) || ((97 <=? c) && (c <=? 122))
  || (c =? 95) || (c =? 170) || (c =? 178) || (c =? 179) || (c =? 181)
  || (c =? 185) || (c =? 186) || ((188 <=? c) && (c <=? 190))
  || ((192 <=? c) && (c <=? 591) && negb (c =? 215) && negb (c =? 247))
  || ((1024 <=? c) && (c <=? 1153)) || ((1162 <=? c) && (c <=? 1327)).

Fixpoint prefixb (p s : pystr) : bool :=
  match p, s with
  | [], _ => true
  | x :: p', y :: s' => (x =? y) && prefixb p' s'
  | _ :: _, [] => false
  end.

(** [needle in haystack]. *)
Fixpoint contains (s p : pystr) : bool :=
  prefixb p s || match s with [] => false | _ :: s' => contains s' p end.

(** [haystack.find(needle)] when the needle occurs. *)
Fixpoint find_index (s p : pystr) : nat :=
  if prefixb p s then 0%nat
  else match s with [] => 0%nat | _ :: s' => S (find_index s' p) end.

(** [s.replace(p, "", 1)]. *)
Fixpoint remove_first (s p : pystr) : pystr :=
  if prefixb p s then skipn (length p) s
  else match s with [] => [] | c :: s' => c :: remove_first s' p end.

Fixpoint lstrip (s : pystr) : pystr :=
  match s with
  | c :: s' => if is_space c then lstrip s' else s
  | [] => []
  end.

(** [str.strip()]. *)
Definition strip (s : pystr) : pystr := rev (lstrip (rev (lstrip s))).

Definition any_in (s : pystr) (ws : list pystr) : bool :=
  existsb (contains s) ws.

Definition words (l : list string) : list pystr := map py l.

(** [str(n)] for an int.  CPython raises [ValueError] beyond 4300
    digits; the integers this module prints were all read by [int()],
    from the text or from the API's JSON, so they stay within it. *)
Fixpoint digits_of (fuel : nat) (n : Z) : pystr :=
  match fuel with
  | O => []
  | S f => if n <? 10 then [48 + n] else digits_of f (n / 10) ++ [48 + n mod 10]
  end.

Definition str_int (n : Z) : pystr :=
  if n <? 0 then 45 :: digits_of (Z.to_nat (Z.log2 (- n) + 2)) (- n)
  else digits_of (Z.to_nat (Z.log2 n + 2)) n.

(** [int(s)] for a string of decimal digits, at most 4300 of them (the
    caller checks the limit). *)
Definition int_of_digits (s : pystr) : Z :=
  fold_left (fun acc c => acc * 10 + (c - 48)) s 0.

(* ------------------------------------------------------------------ *)
(** ** Data classes *)

Inductive Intent :=
| CREATE_LEAD | LIST_LEADS | SHOW_LEAD | EDIT_LEAD | DELETE_LEAD | ADD_NOTE
| SHOW_NOTES | ANALYZE_LEAD | SEARCH | STATS | SALES | UNKNOWN | CONFIRM | CANCEL.

Definition Intent_eq_dec (i j : Intent) : {i = j} + {i <> j}.
Proof. decide equality. Defined.

Definition intent_eqb (i j : Intent) : bool :=
  if Intent_eq_dec i j then true else false.

(** [Intent.value]. *)
Definition intent_value (i : Intent) : pystr :=
  py match i with
     | CREATE_LEAD => "create_lead" | LIST_LEADS => "list_leads"
     | SHOW_LEAD => "show_lead" | EDIT_LEAD => "edit_lead"
     | DELETE_LEAD => "delete_lead" | ADD_NOTE => "add_note"
     | SHOW_NOTES => "show_notes" | ANALYZE_LEAD => "analyze_lead"
     | SEARCH => "search" | STATS => "stats" | SALES => "sales"
     | UNKNOWN => "unknown" | CONFIRM => "confirm" | CANCEL => "cancel"
     end.

Record Entities := mkEntities {
  lead_id : option Z;
  lead_name : option pystr;
  phone : option pystr;
  email : option pystr;
  stage : option pystr;
  source : option pystr;
  domain : option pystr;
  note_content : option pystr;
  search_query : option pystr }.

(** [Entities()]. *)
Definition no_entities : Entities :=
  mkEntities None None None None None None None None None.

Definition set_lead_id (e : Entities) (v : option Z) : Entities :=
  mkEntities v e.(lead_name) e.(phone) e.(email) e.(stage) e.(source)
    e.(domain) e.(note_content) e.(search_query).

(** Truth value of an [Optional[int]] ([None] and [0] are false). *)
Definition truthy_id (o : option Z) : bool :=
  match o with Some n => negb (n =? 0) | None => false end.

(** Truth value of an [Optional[str]]. *)
Definition truthy_str (o : option pystr) : bool :=
  match o with Some (_ :: _) => true | _ => false end.

(** Confidences are kept in hundredths: [0.9] is [90]. *)
Record Action := mkAction {
  intent : Intent;
  entities : Entities;
  confidence : Z;
  requires_confirmation : bool;
  original_text : pystr }.

Definition set_entities (a : Action) (e : Entities) : Action :=
  mkAction a.(intent) e a.(confidence) a.(requires_confirmation) a.(original_text).

(* ------------------------------------------------------------------ *)
(** ** Regular expressions of the extractor

    Backtracking matcher with Python's [re] semantics for the operators
    the extractor uses: a class of one code point, concatenation, greedy
    [?] and [*], and one capturing group.  [re.search] returns the
    leftmost match. *)

Inductive regex :=
| RCls (p : Z -> bool)
| RSeq (r1 r2 : regex)
| ROpt (r : regex)
| RStar (r : regex)
| RGroup (r : regex).

Abbreviation capture := (option (pystr * pystr)).

Fixpoint bt {R} (r : regex) (s : pystr) (g : capture)
         (k : pystr -> capture -> option R) {struct r} : option R :=
  match r with
  | RCls p => match s with c :: s' => if p c then k s' g else None | [] => None end
  | RSeq r1 r2 => bt r1 s g (fun s1 g1 => bt r2 s1 g1 k)
  | ROpt r1 => match bt r1 s g k with Some x => Some x | None => k s g end
  | RStar r1 =>
      (fix loop (n : nat) (s : pystr) (g : capture) {struct n} : option R :=
         match n with
         | O => k s g
         | S n' =>
             match bt r1 s g (fun s' g' =>
                     if (length s' <? length s)%nat then loop n' s' g' else None) with
             | Some x => Some x
             | None => k s g
             end
         end) (length s) s g
  | RGroup r1 => bt r1 s g (fun s' _ => k s' (Some (s, s')))
  end.

(** Text between two suffixes of one string. *)
Definition span (from to : pystr) : pystr := firstn (length from - length to) from.

(** [re.search(r, s)]: whole match and group 1. *)
Fixpoint search (r : regex) (s : pystr) : option (pystr * option pystr) :=
  match bt r s None (fun e g => Some (e, g)) with
  | Some (e, g) =>
      Some (span s e, match g with Some (a, b) => Some (span a b) | None => None end)
  | None => match s with [] => None | _ :: s' => search r s' end
  end.

Definition lit (c : Z) : regex := RCls (Z.eqb c).
Definition lit_ic (c : Z) : regex := RCls (fun x => lower_cp x =? c).
Fixpoint seql (l : list regex) : regex :=
  match l with [] => RStar (RCls (fun _ => false)) | [r] => r | r :: l' => RSeq r (seql l') end.
Definition txt (s : string) : regex := seql (map lit (py s)).
Definition txt_ic (s : string) : regex := seql (map lit_ic (py s)).
Definition plus (r : regex) : regex := RSeq r (RStar r).
Definition one_of (s : string) : regex :=
  RCls (fun c => existsb (Z.eqb c) (py s)).
Definition ws : regex := RCls is_space.
Definition dig : regex := RCls is_digit.
Fixpoint rep (n : nat) (r : regex) : regex :=
  match n with O => RStar (RCls (fun _ => false)) | 1%nat => r | S n' => RSeq r (rep n' r) end.

(* ------------------------------------------------------------------ *)
(** ** IntentDetector._extract_entities *)

Definition lead_patterns : list regex :=
  [ seql [txt "лід"; RStar ws; ROpt (lit 35); RGroup (plus dig)];
    seql [txt "lead"; RStar ws; ROpt (lit 35); RGroup (plus dig)];
    seql [txt "до"; RStar ws; txt "лід"; one_of "ау"; RStar ws; ROpt (lit 35);
          RGroup (plus dig)];
    seql [txt "для"; RStar ws; txt "лід"; one_of "ау"; RStar ws; ROpt (lit 35);
          RGroup (plus dig)];
    seql [lit 35; RGroup (plus dig)] ].

(** The loop over [lead_patterns]: [int(match.group(1))] raises
    [ValueError] on more than [sys.int_info.default_max_str_digits]
    (4300) digits; the bare [except] swallows it and the next pattern is
    tried. *)
Definition max_str_digits : nat := 4300.

Fixpoint first_lead_id (pats : list regex) (text_lower : pystr) : option Z :=
  match pats with
  | [] => None
  | p :: ps =>
      match search p text_lower with
      | Some (_, Some g) =>
          if (max_str_digits <? length g)%nat then first_lead_id ps text_lower
          else Some (int_of_digits g)
      | _ => first_lead_id ps text_lower
      end
  end.

Definition phone_patterns : list regex :=
  [ seql [ROpt (lit 43); txt "380"; rep 9 dig];
    seql [ROpt (lit 43); rep 10 dig; ROpt (RSeq dig (ROpt dig))] ].

Fixpoint first_match (pats : list regex) (text : pystr) : option pystr :=
  match pats with
  | [] => None
  | p :: ps => match search p text with
               | Some (m, _) => Some m
               | None => first_match ps text
               end
  end.

Definition word_dot_dash : regex :=
  RCls (fun c => is_word c || (c =? 46) || (c =? 45)).

Definition email_pattern : regex :=
  seql [plus word_dot_dash; lit 64; plus word_dot_dash; lit 46; plus (RCls is_word)].

(** [[А-Яа-яёЇїІіЄєA-Za-z]]. *)
Definition name_char (c : Z) : bool :=
  ((1040 <=? c) && (c <=? 1071)) || ((1072 <=? c) && (c <=? 1103))
  || (c =? 1105) || (c =? 1031) || (c =? 1111) || (c =? 1030) || (c =? 1110)
  || (c =? 1028) || (c =? 1108) || ((65 <=? c) && (c <=? 90))
  || ((97 <=? c) && (c <=? 122)).

(** Under [re.IGNORECASE] a code point matches a class when its lower
    case does. *)
Definition name_char_ic : regex := RCls (fun c => name_char (lower_cp c)).
Definition one_of_ic (s : string) : regex :=
  RCls (fun c => existsb (Z.eqb (lower_cp c)) (py s)).

Definition name_group : regex :=
  RGroup (seql [plus name_char_ic; ROpt (RSeq (plus ws) (plus name_char_ic))]).

Definition name_patterns : list regex :=
  [ seql [txt_ic "лід"; ROpt (one_of_ic "ау"); ROpt (one_of ".,"); RStar ws;
          name_group];
    seql [txt_ic "додай"; plus ws; ROpt (RSeq (txt_ic "нового") (plus ws));
          txt_ic "ліда"; ROpt (one_of ".,"); RStar ws; name_group] ].

Definition name_stop_words : list pystr := words ["додай"; "ліда"; "номер"]%string.

Fixpoint first_name (pats : list regex) (text : pystr) : option pystr :=
  match pats with
  | [] => None
  | p :: ps =>
      match search p text with
      | Some (_, Some g) =>
          let name := strip g in
          if (2 <? length name)%nat && negb (any_in (lower name) name_stop_words)
          then Some name else first_name ps text
      | _ => first_name ps text
      end
  end.

Definition extract_source (tl : pystr) : option pystr :=
  if contains tl (py "сканер") || contains tl (py "scanner") then Some (py "SCANNER")
  else if contains tl (py "партнер") || contains tl (py "partner") then Some (py "PARTNER")
  else None.

Definition extract_domain (tl : pystr) : option pystr :=
  if contains tl (py "перший") || contains tl (py "first") then Some (py "FIRST")
  else if contains tl (py "другий") || contains tl (py "second") then Some (py "SECOND")
  else if contains tl (py "третій") || contains tl (py "third") then Some (py "THIRD")
  else None.

Fixpoint extract_query (verbs : list pystr) (tl : pystr) : option pystr :=
  match verbs with
  | [] => None
  | v :: vs =>
      if contains tl v then
        match strip (remove_first tl v) with
        | [] => extract_query vs tl
        | q => Some q
        end
      else extract_query vs tl
  end.

Fixpoint extract_note (verbs : list pystr) (text tl : pystr) : option pystr :=
  match verbs with
  | [] => None
  | v :: vs =>
      if contains tl v then
        match strip (skipn (find_index tl v + length v) text) with
        | [] => None
        | c => Some c
        end
      else extract_note vs text tl
  end.

Definition _extract_entities (text : pystr) : Entities :=
  let text_lower := lower text in
  mkEntities
    (first_lead_id lead_patterns text_lower)
    (first_name name_patterns text)
    (first_match phone_patterns text)
    (first_match [email_pattern] text)
    None
    (extract_source text_lower)
    (extract_domain text_lower)
    (extract_note (words ["додай нотатку"; "запиши"; "нотатка"]%string) text text_lower)
    (extract_query (words ["знайди"; "шукай"; "search"; "find"]%string) text_lower).

(* ------------------------------------------------------------------ *)
(** ** Conversation context *)

Record ConversationTurn := mkTurn {
  timestamp : Z;
  user_input : pystr;
  action : Action;
  bot_response : pystr }.

(** The [state] string of a context: ["idle"], ["awaiting_confirmation"]
    or ["editing"]. *)
Inductive CtxState := idle | awaiting_confirmation | editing.

Definition CtxState_eqb (a b : CtxState) : bool :=
  match a, b with
  | idle, idle | awaiting_confirmation, awaiting_confirmation
  | editing, editing => true
  | _, _ => false
  end.

(** Timestamps are integers (microseconds). *)
Record UserContext := mkCtx {
  user_id : Z;
  last_lead_id : option Z;
  last_lead_name : option pystr;
  last_action : option pystr;
  confirmation_pending : option Action;
  conversation_history : list ConversationTurn;
  state : CtxState;
  last_seen_at : Z }.

(** [UserContext(user_id=uid)] created at time [now]. *)
Definition new_context (uid now : Z) : UserContext :=
  mkCtx uid None None None None [] idle now.

(** [UserContext.add_turn]: append, keep the last 10, refresh. *)
Definition add_turn (now : Z) (t : ConversationTurn) (c : UserContext) : UserContext :=
  let h := c.(conversation_history) ++ [t] in
  let h' := if (10 <? length h)%nat then skipn (length h - 10) h else h in
  mkCtx c.(user_id) c.(last_lead_id) c.(last_lead_name) c.(last_action)
    c.(confirmation_pending) h' c.(state) now.

(* ------------------------------------------------------------------ *)
(** ** IntentDetector *)

Record PatternData := mkPattern {
  keywords : list pystr;
  verbs : list pystr;
  phrases : list pystr }.

(** [IntentDetector.PATTERNS], in declaration order. *)
Definition PATTERNS : list (Intent * PatternData) :=
  [ (CREATE_LEAD, mkPattern
      (words ["лід"; "ліда"; "лідів"]%string)
      (words ["додай"; "додати"; "потрібно"; "створи"; "створити"; "новий"; "new"; "add"; "create"]%string)
      (words ["додай ліда"; "додати ліда"; "потрібно додати"; "новий ліда"; "new lead"]%string));
    (LIST_LEADS, mkPattern
      (words ["лід"; "ліди"; "лідів"; "lead"; "leads"]%string)
      (words ["покажи"; "показати"; "список"; "show"; "list"; "мої"; "всі"]%string)
      (words ["покажи ліди"; "show leads"; "мої ліди"; "список лідів"]%string));
    (SHOW_NOTES, mkPattern
      (words ["нотатк"; "нотаток"; "нотатки"; "заміт"; "note"; "notes"]%string)
      (words ["покажи"; "показати"; "show"; "мої"]%string)
      (words ["покажи нотатки"; "show notes"]%string));
    (ADD_NOTE, mkPattern
      (words ["нотатк"; "нотатку"; "заміт"; "note"]%string)
      (words ["додай"; "додати"; "запиши"; "записати"; "add"; "create"]%string)
      (words ["додай нотатку"; "add note"]%string));
    (STATS, mkPattern
      (words ["статистик"; "звіт"; "stats"; "дашборд"; "dashboard"]%string)
      (words ["покажи"; "show"]%string)
      (words ["статистика"; "show stats"]%string));
    (SEARCH, mkPattern
      (words ["знайди"; "пошук"; "search"; "find"; "шукай"]%string)
      (words ["знайди"; "шукай"; "search"; "find"]%string)
      (words ["знайди"; "search"]%string));
    (SALES, mkPattern
      (words ["продаж"; "sale"; "sales"; "pipeline"; "воронк"]%string)
      (words ["покажи"; "show"]%string)
      (words ["продажі"; "sales"; "pipeline"]%string));
    (ANALYZE_LEAD, mkPattern
      (words ["гаряч"; "найкращ"; "best"; "hot"; "top"; "оцін"; "score"; "аналіз"; "analyze"]%string)
      (words ["оціни"; "проаналізуй"; "analyze"]%string)
      (words ["гарячі ліди"; "hot leads"; "оціни ліда"]%string));
    (EDIT_LEAD, mkPattern
      (words ["лід"; "ліда"]%string)
      (words ["редагуй"; "редагувати"; "зміни"; "змінити"; "edit"; "change"; "онов"]%string)
      (words ["редагуй ліда"; "edit lead"]%string));
    (DELETE_LEAD, mkPattern
      (words ["лід"; "ліда"; "лідів"]%string)
      (words ["видали"; "видалити"; "delete"; "remove"]%string)
      (words ["видали ліда"; "delete lead"]%string)) ].

(** Tier 1: the first intent (in table order) one of whose phrases
    occurs in the text. *)
Fixpoint phrase_tier (tbl : list (Intent * PatternData)) (tl : pystr) : option Intent :=
  match tbl with
  | [] => None
  | (i, pd) :: t => if any_in tl pd.(phrases) then Some i else phrase_tier t tl
  end.

(** Tier 2: the first intent with a keyword and a verb in the text. *)
Fixpoint keyword_tier (tbl : list (Intent * PatternData)) (tl : pystr) : option Intent :=
  match tbl with
  | [] => None
  | (i, pd) :: t =>
      if any_in tl pd.(keywords) && any_in tl pd.(verbs) then Some i
      else keyword_tier t tl
  end.

(** Tier 3 vocabulary. *)
Definition confirm_words : list pystr :=
  words ["так"; "так"; "yes"; "підтверджую"; "confirm"; "ок"; "окей"]%string.
Definition cancel_words : list pystr :=
  words ["ні"; "no"; "скасуй"; "cancel"; "відміна"]%string.

(** [if current_context and not entities.lead_id:
        entities.lead_id = current_context.last_lead_id] *)
Definition fill_from_context (ctx : option UserContext) (e : Entities) : Entities :=
  match ctx with
  | Some c => if truthy_id e.(lead_id) then e else set_lead_id e c.(last_lead_id)
  | None => e
  end.

(** [IntentDetector.detect]. *)
Definition detect (text : pystr) (ctx : option UserContext) : Action :=
  let text_lower := lower text in
  match phrase_tier PATTERNS text_lower with
  | Some i => mkAction i (fill_from_context ctx (_extract_entities text)) 90 false text
  | None =>
      match keyword_tier PATTERNS text_lower with
      | Some i => mkAction i (fill_from_context ctx (_extract_entities text)) 80 false text
      | None =>
          if any_in text_lower confirm_words then mkAction CONFIRM no_entities 95 false text
          else if any_in text_lower cancel_words then mkAction CANCEL no_entities 95 false text
          else mkAction UNKNOWN (_extract_entities text) 30 false text
      end
  end.

(* ------------------------------------------------------------------ *)
(** ** VoiceAIManager.assess_transcription_quality

    Scores are kept in hundredths.  Every reachable score is a sum of
    the penalties 0.4, 0.25, 0.2, 0.15 taken from 1.0; the only one on a
    threshold, 1.0 - 0.25 = 0.75, is exact in binary floating point, so
    the integer comparisons below agree with the float ones.

    The class [\w] of [re] on str patterns is Unicode-wide: letters,
    decimal digits and other numerals of every script, and [_].  Its
    table is not written out here: the section variable [word_char]
    stands for it, so that everything stated about the assessor holds
    whatever the table is.  ([is_word] above is its restriction to Latin
    and Cyrillic.)  [\s] is [is_space], which is the whole of it. *)

Section Quality.

Variable word_char : Z -> bool.

Inductive QLabel := LOW | MEDIUM | HIGH.

Record QualityAssessment := mkQuality {
  score : Z;
  label : QLabel;
  needs_clarification : bool;
  hints : list pystr }.

(** [len(re.findall(r"\w+", raw))]. *)
Fixpoint word_count_from (in_word : bool) (s : pystr) : nat :=
  match s with
  | [] => 0
  | c :: s' =>
      if word_char c then (if in_word then 0 else 1) + word_count_from true s'
      else word_count_from false s'
  end.

Definition word_count (s : pystr) : nat := word_count_from false s.

(** Complement of [[^\w\s\#\+\-\.@,:;!?іїєґІЇЄҐа-яА-Яa-zA-Z0-9]]. *)
Definition allowed_char (c : Z) : bool :=
  word_char c || is_space c || existsb (Z.eqb c) (py "#+-.@,:;!?")
  || existsb (Z.eqb c) (py "іїєґІЇЄҐ")
  || ((1072 <=? c) && (c <=? 1103)) || ((1040 <=? c) && (c <=? 1071))
  || ((97 <=? c) && (c <=? 122)) || ((65 <=? c) && (c <=? 90)) || is_digit c.

Definition weird_count (s : pystr) : nat := length (filter (fun c => negb (allowed_char c)) s).

(** [re.search(r"(.)\1{4,}", raw)]: five equal consecutive code points,
    none a newline. *)
Fixpoint has_run (s : pystr) : bool :=
  match s with
  | [] => false
  | c :: s' => (negb (c =? 10) && prefixb (repeat c 4) s') || has_run s'
  end.

Definition assess_transcription_quality (text : pystr) : QualityAssessment :=
  let raw := strip text in
  match raw with
  | [] => mkQuality 0 LOW true
            [py "Спробуйте говорити чіткіше"; py "Запишіть голосове в тихому місці"]
  | _ =>
      let '(s1, h1) := if (length raw <? 6)%nat
                       then (100 - 40, [py "Коротке повідомлення — додайте більше контексту"])
                       else (100, []) in
      let '(s2, h2) := if (word_count raw <? 2)%nat
                       then (s1 - 25, h1 ++ [py "Сформулюйте команду повним реченням"])
                       else (s1, h1) in
      (* weird_ratio = len(weird_chars) / max(len(raw), 1) > 0.2 *)
      let '(s3, h3) := if (Z.max (Z.of_nat (length raw)) 1 <? 5 * Z.of_nat (weird_count raw))
                       then (s2 - 20, h2 ++ [py "Багато шуму в тексті — перевірте мікрофон"])
                       else (s2, h2) in
      let '(s4, h4) := if has_run raw
                       then (s3 - 15, h3 ++ [py "Ймовірна помилка розпізнавання — повторіть команду"])
                       else (s3, h3) in
      let sc := Z.max 0 (Z.min s4 100) in
      let lbl := if 75 <=? sc then HIGH else if 50 <=? sc then MEDIUM else LOW in
      mkQuality sc lbl (sc <? 50) (firstn 3 h4)
  end.

End Quality.

(* ------------------------------------------------------------------ *)
(** ** VoiceAIManager: state, collaborators, results

    The manager's mutable state is the dictionary [_user_contexts] and
    the log of network requests it issued.  One call of [process_text]
    runs at one instant [now]; what the external collaborators answer
    during that call is part of its environment.  Code that mutates the
    [UserContext] object obtained from [get_context] is written as an
    update of the dictionary entry of the same user.

    Both readings need a TTL that is not 0 (and a call shorter than the
    TTL).  The program reads [datetime.now()] afresh in every
    [get_context]; with a TTL of 0 each of them evicts the context the
    previous one touched, and what is later written to a [UserContext]
    obtained before is written to an object no longer in the dictionary.
    The statements about what a call leaves in the context assume a
    non-zero TTL for that reason. *)

Inductive NetCall := FetchLeads | ChatCompletion.

(** Outcome of the chat-completion request: it raises (timeout,
    connection error, ...), or it answers with a status code and a body
    whose [choices[0].message.content] is present or missing (a missing
    one raises [KeyError]/[IndexError] inside the [try]). *)
Inductive AIOutcome := AIRaises | AIStatus (code : Z) (content : option pystr).

Record Env := mkEnv {
  now : Z;
  ai_outcome : AIOutcome;
  leads_data : pystr  (* what [_fetch_leads] returns; it never raises *) }.

(** [OPENAI_API_KEY] and [VOICE_AI_CONTEXT_TTL_MINUTES] (a non-negative
    number of minutes, 120 by default). *)
Record Config := mkConfig {
  openai_api_key : option pystr;
  context_ttl_minutes : N }.

Definition default_ttl_minutes : N := 120.

Record World := mkWorld {
  contexts : gmap Z UserContext;
  net_log : list NetCall }.

Definition M (A : Type) : Type := Env -> World -> A * World.

Global Instance M_ret : MRet M := fun A x _ w => (x, w).
Global Instance M_bind : MBind M :=
  fun A B f m e w => let '(a, w') := m e w in f a e w'.

Definition ask : M Env := fun e w => (e, w).
Definition get_world : M World := fun _ w => (w, w).
Definition modify_contexts (f : gmap Z UserContext -> gmap Z UserContext) : M unit :=
  fun _ w => (tt, mkWorld (f w.(contexts)) w.(net_log)).
Definition log_call (c : NetCall) : M unit :=
  fun _ w => (tt, mkWorld w.(contexts) (w.(net_log) ++ [c])).

Definition run {A} (m : M A) (e : Env) (w : World) : A * World := m e w.

(** Field updates of a context. *)
Definition touch (t : Z) (c : UserContext) : UserContext :=
  mkCtx c.(user_id) c.(last_lead_id) c.(last_lead_name) c.(last_action)
    c.(confirmation_pending) c.(conversation_history) c.(state) t.

Definition set_pending (p : option Action) (st : CtxState) (c : UserContext) : UserContext :=
  mkCtx c.(user_id) c.(last_lead_id) c.(last_lead_name) c.(last_action)
    p c.(conversation_history) st c.(last_seen_at).

Definition set_last_lead (lid : Z) (name : option pystr) (c : UserContext) : UserContext :=
  mkCtx c.(user_id) (Some lid)
    (if truthy_str name then name else c.(last_lead_name))
    c.(last_action) c.(confirmation_pending) c.(conversation_history) c.(state)
    c.(last_seen_at).

(** Result of an action response builder. *)
Record ActionResponse := mkAR {
  ar_type : pystr;
  ar_text : pystr;
  ar_suggestions : option (list pystr);
  ar_followup_hint : option pystr }.

(** The ["action"] entry of a result is an [Action] or a bare [Intent]. *)
Inductive ResAction := RAct (a : Action) | RIntent (i : Intent).

(** The result dictionary; an absent key is [None]. *)
Record Response := mkResponse {
  success : bool;
  res_text : pystr;
  res_action : ResAction;
  response : pystr;
  response_type : option pystr;
  keyboard : option pystr;
  followup_hint : option pystr;
  suggestions : option (list pystr);
  needs_confirmation : bool }.

Definition simple_response (ok : bool) (t : pystr) (a : ResAction) (r : pystr)
           (hint : option pystr) (nc : bool) : Response :=
  mkResponse ok t a r None None hint None nc.

(** [x or '—'] in an f-string. *)
Definition or_dash (o : option pystr) : pystr :=
  if truthy_str o then match o with Some s => s | None => [] end else py "—".

(** [{x}] in an f-string for an [Optional[int]]. *)
Definition fmt_id (o : option Z) : pystr :=
  match o with Some n => str_int n | None => py "None" end.

Definition fmt_str (o : option pystr) : pystr :=
  match o with Some s => s | None => py "None" end.

(** [a or b] for two [Optional[int]]. *)
Definition or_id (a b : option Z) : option Z := if truthy_id a then a else b.

Section Manager.

Context (cfg : Config).

(** [_cleanup_contexts]: drop every context last seen before
    [now - ttl]. *)
Definition sweep (t : Z) (m : gmap Z UserContext) : gmap Z UserContext :=
  if decide (m = ∅) then m
  else
    let cutoff := t - Z.of_N cfg.(context_ttl_minutes) * 60000000 in
    filter (fun kv : Z * UserContext => cutoff <= kv.2.(last_seen_at)) m.

Definition _cleanup_contexts : M unit :=
  e ← ask; modify_contexts (sweep e.(now)).

(** [get_context]. *)
Definition get_context (uid : Z) : M UserContext :=
  _cleanup_contexts;;
  e ← ask;
  w ← get_world;
  let c := match w.(contexts) !! uid with
           | Some c => c
           | None => new_context uid e.(now)
           end in
  let c' := touch e.(now) c in
  modify_contexts (insert uid c');;
  mret c'.

Definition update_context_lead (uid lid : Z) (lead_name : option pystr) : M unit :=
  _ ← get_context uid;
  modify_contexts (alter (set_last_lead lid lead_name) uid).

Definition set_confirmation (uid : Z) (a : Action) : M unit :=
  _ ← get_context uid;
  modify_contexts (alter (set_pending (Some a) awaiting_confirmation) uid).

Definition clear_confirmation (uid : Z) : M unit :=
  _ ← get_context uid;
  modify_contexts (alter (set_pending None idle) uid).

Definition pronoun_patterns : list pystr :=
  words ["того ліда"; "того"; "його"; "йому"; "нього"; "неї"; "останнього";
         "останньому"; "that lead"; "that one"; "the previous"; "him"]%string.

Definition resolve_pronoun (text : pystr) (uid : Z)
  : M (pystr * option Z * option pystr) :=
  ctx ← get_context uid;
  if any_in (lower text) pronoun_patterns && truthy_id ctx.(last_lead_id)
  then mret (text, ctx.(last_lead_id), ctx.(last_lead_name))
  else mret (text, None, None).

Definition _needs_confirmation (a : Action) : bool :=
  match a.(intent) with
  | CREATE_LEAD | DELETE_LEAD | EDIT_LEAD => true
  | _ => false
  end.

Definition confirm_hint : pystr :=
  py "<i>Напишіть 'так' для підтвердження або 'ні' для скасування.</i>".

Definition confirmation_text (a : Action) : pystr :=
  let en := a.(entities) in
  match a.(intent) with
  | CREATE_LEAD =>
      py "📋 <b>ПІДТВЕРДЖЕННЯ</b>\n\n" ++ py "Створити ліда?\n\n"
      ++ py "👤 <b>Ім'я:</b> " ++ or_dash en.(lead_name) ++ py "\n"
      ++ py "📞 <b>Телефон:</b> " ++ or_dash en.(phone) ++ py "\n"
      ++ py "📧 <b>Email:</b> " ++ or_dash en.(email) ++ py "\n"
      ++ py "📡 <b>Джерело:</b> "
      ++ (if truthy_str en.(source) then fmt_str en.(source) else py "MANUAL")
      ++ py "\n\n" ++ confirm_hint
  | DELETE_LEAD =>
      py "⚠️ <b>ВИДАЛЕННЯ ЛІДА #" ++ fmt_id en.(lead_id) ++ py "</b>\n\n"
      ++ py "Цю дію неможливо відновити!\n\n" ++ confirm_hint
  | EDIT_LEAD =>
      py "✏️ <b>ПІДТВЕРДЖЕННЯ ОНОВЛЕННЯ</b>\n\n"
      ++ py "Оновити ліда #"
      ++ (if truthy_id en.(lead_id) then fmt_id en.(lead_id) else py "—")
      ++ py "?\n\n" ++ confirm_hint
  | _ => py "Підтвердіть вашу дію: так/ні"
  end.

Definition _build_confirmation_message (a : Action) (uid : Z) : M Response :=
  mret (simple_response true a.(original_text) (RAct a) (confirmation_text a) None true).

Definition _build_action_response (a : Action) (uid : Z) (confirmed : bool)
  : M ActionResponse :=
  context ← get_context uid;
  let en := a.(entities) in
  mret match a.(intent) with
  | CREATE_LEAD =>
      if confirmed then
        mkAR (py "lead_created")
          (py "✅ <b>Лід створений!</b>\n\n" ++ py "Ім'я: " ++ or_dash en.(lead_name)
           ++ py "\n" ++ py "Телефон: " ++ or_dash en.(phone)) None None
      else mkAR (py "confirmation_needed") (py "Підтвердіть створення ліда: так/ні") None None
  | LIST_LEADS =>
      mkAR (py "leads_list") (py "📋 <b>Ваші ліди:</b>\n\nПоказую список...")
        (Some (words ["покажи нотатки"; "знайди гарячі"; "статистика"]%string)) None
  | STATS =>
      mkAR (py "stats") (py "📊 <b>Статистика:</b>\n\nЗавантажую...")
        (Some (words ["гарячі ліди"; "продажі"; "знайди кваліфіковані"]%string)) None
  | ANALYZE_LEAD =>
      let lid := or_id en.(lead_id) context.(last_lead_id) in
      if truthy_id lid then
        mkAR (py "analysis")
          (py "🤖 <b>Аналіз ліда #" ++ fmt_id lid ++ py "</b>\n\nЗавантажую...") None
          (Some (py "Після аналізу можу запропонувати наступний крок: nurture або transfer."))
      else mkAR (py "error") (py "Вкажіть ID ліда для аналізу.") None None
  | SEARCH =>
      mkAR (py "search_results")
        (py "🔍 <b>Результати пошуку:</b> " ++ fmt_str en.(search_query) ++ py "\n\nШукаю...")
        None None
  | SHOW_NOTES => mkAR (py "notes_list") (py "📝 <b>Нотатки:</b>\n\nПоказую...") None None
  | ADD_NOTE =>
      let lid := or_id en.(lead_id) context.(last_lead_id) in
      if truthy_id lid && truthy_str en.(note_content) then
        mkAR (py "note_added")
          (py "📝 Нотатка для ліда #" ++ fmt_id lid ++ py ":\n" ++ fmt_str en.(note_content))
          None None
      else mkAR (py "error") (py "Вкажіть ліда та текст нотатки.") None None
  | SALES => mkAR (py "sales_pipeline") (py "💰 <b>Продажі:</b>\n\nПоказую воронку...") None None
  | i => mkAR (py "text") (py "Дію '" ++ intent_value i ++ py "' виконано.") None None
  end.

(** The [try] block of [_ai_fallback]: [inl] is an exception raised in
    it, [inr (Some c)] the answer of a successful request, [inr None] a
    non-200 status. *)
Inductive PyException := RaisedException.

Definition ai_request_body (o : AIOutcome) : PyException + option pystr :=
  match o with
  | AIRaises => inl RaisedException
  | AIStatus code content =>
      if code =? 200 then
        match content with
        | Some c => inr (Some c)
        | None => inl RaisedException
        end
      else inr None
  end.

Definition ai_clarify_text : pystr :=
  py "Не зовсім зрозумів запит. Уточніть: що саме зробити з лідом?".
Definition ai_clarify_hint : pystr :=
  py "Наприклад: 'покажи ліди', 'додай ліда', 'додай нотатку до ліда #12'.".
Definition ai_failure_text : pystr := py "Не вдалося обробити запит. Спробуйте ще раз.".

Definition _ai_fallback (text : pystr) (uid : Z) : M Response :=
  if negb (truthy_str cfg.(openai_api_key)) then
    mret (simple_response true text (RIntent UNKNOWN) ai_clarify_text
            (Some ai_clarify_hint) false)
  else
    e ← ask;
    log_call FetchLeads;;      (* leads_data = await self._fetch_leads(user_id) *)
    log_call ChatCompletion;;  (* client.post(.../chat/completions) *)
    match ai_request_body e.(ai_outcome) with
    | inr (Some ai_response) =>
        mret (simple_response true text (RIntent UNKNOWN) ai_response None false)
    | inr None | inl _ =>
        mret (simple_response true text (RIntent UNKNOWN) ai_failure_text None false)
    end.

(** [if lead_id: self.update_context_lead(user_id, lead_id)]. *)
Definition remember_lead (uid : Z) (lid : option Z) : M unit :=
  match lid with
  | Some l => if truthy_id (Some l) then update_context_lead uid l None else mret tt
  | None => mret tt
  end.

Definition _execute_action (a : Action) (uid : Z) (confirmed : bool) : M Response :=
  _ ← get_context uid;
  (if confirmed then clear_confirmation uid else mret tt);;
  if intent_eqb a.(intent) UNKNOWN then _ai_fallback a.(original_text) uid
  else
    resp ← _build_action_response a uid confirmed;
    remember_lead uid a.(entities).(lead_id);;
    e ← ask;
    let turn := mkTurn e.(now) a.(original_text) a resp.(ar_text) in
    modify_contexts (alter (add_turn e.(now) turn) uid);;
    mret (mkResponse true a.(original_text) (RAct a) resp.(ar_text) (Some resp.(ar_type))
            None resp.(ar_followup_hint)
            (Some match resp.(ar_suggestions) with Some l => l | None => [] end)
            false).

(** Vocabulary of the replies to a pending confirmation. *)
Definition reply_yes_words : list pystr :=
  words ["так"; "yes"; "підтверджую"; "confirm"; "ок"]%string.
Definition reply_no_words : list pystr :=
  words ["ні"; "no"; "скасуй"; "cancel"]%string.

(** Steps 589-606 of [process_text]: detection, context update, gate. *)
(** Lines 590-593: the detected action, with the back-referenced
    identifier adopted when it has none. *)
Definition resolved_action (context : UserContext) (resolved_text : pystr)
           (resolved_lead_id : option Z) : Action :=
  let action0 := detect resolved_text (Some context) in
  if truthy_id resolved_lead_id && negb (truthy_id action0.(entities).(lead_id))
  then set_entities action0 (set_lead_id action0.(entities) resolved_lead_id)
  else action0.

Definition detect_and_dispatch (text : pystr) (uid : Z) (context : UserContext)
           (resolved_text : pystr) (resolved_lead_id : option Z) : M Response :=
  let action := resolved_action context resolved_text resolved_lead_id in
  remember_lead uid action.(entities).(lead_id);;
  if _needs_confirmation action then
    set_confirmation uid action;;
    _build_confirmation_message action uid
  else _execute_action action uid false.

Definition process_text (text : pystr) (uid : Z) : M Response :=
  context ← get_context uid;
  '(resolved_text, resolved_lead_id, _) ← resolve_pronoun text uid;
  match context.(state), context.(confirmation_pending) with
  | awaiting_confirmation, Some pending =>
      let text_lower := lower text in
      if any_in text_lower reply_yes_words then _execute_action pending uid true
      else if any_in text_lower reply_no_words then
        clear_confirmation uid;;
        mret (simple_response true text (RIntent CANCEL) (py "❌ Скасовано.") None false)
      else detect_and_dispatch text uid context resolved_text resolved_lead_id
  | _, _ => detect_and_dispatch text uid context resolved_text resolved_lead_id
  end.

End Manager.

(* ------------------------------------------------------------------ *)
(** ** Voice input: [_transcribe] and [process_voice] *)

(** ["sep".join(l)]. *)
Definition join (sep : pystr) (l : list pystr) : pystr :=
  match l with
  | [] => []
  | x :: xs => x ++ concat (map (fun y => sep ++ y) xs)
  end.

(** Truth value of an [Optional[str]] result, as [if result:]. *)
Definition truthy_opt (o : option pystr) : bool := truthy_str o.

(** [FASTER_WHISPER_AVAILABLE] and [HUGGINGFACE_TOKEN]; the OpenAI key is
    the one of [Config]. *)
Record VoiceConfig := mkVoiceConfig {
  faster_whisper_available : bool;
  huggingface_token : option pystr }.

(** What the local model yields: the texts of its segments, or an
    exception (model loading, temporary file, decoding). *)
Inductive LocalOutcome := LocalRaises | LocalSegments (segments : list pystr).

(** An HTTP transcription request: an exception (network, timeout, JSON
    decoding, a body that is not an object, a ["text"] that is not a
    string), or a status with the ["text"] field of the JSON body when it
    is present. *)
Inductive HttpOutcome := HttpRaises | HttpStatus (code : Z) (text_field : option pystr).

Record VoiceEnv := mkVoiceEnv {
  local_outcome : LocalOutcome;
  huggingface_outcome : HttpOutcome;
  openai_outcome : HttpOutcome }.

Inductive TranscribeService := TLocal | THuggingFace | TOpenAI.

(** [_transcribe_local]: [" ".join(s.text.strip() for s in segments)],
    [None] on an exception. *)
Definition _transcribe_local (o : LocalOutcome) : option pystr :=
  match o with
  | LocalRaises => None
  | LocalSegments segs => Some (join (py " ") (map strip segs))
  end.

(** [response.json().get("text", "").strip()] on status 200. *)
Definition http_transcript (o : HttpOutcome) : option pystr :=
  match o with
  | HttpStatus code t =>
      if code =? 200 then Some (strip match t with Some s => s | None => [] end) else None
  | HttpRaises => None
  end.

Definition _transcribe_huggingface (o : HttpOutcome) : option pystr := http_transcript o.

Definition _transcribe_openai (cfg : Config) (o : HttpOutcome) : option pystr :=
  if negb (truthy_str cfg.(openai_api_key)) then None else http_transcript o.

(** [_transcribe]: the transcript and the services called, in order. *)
Definition _transcribe (cfg : Config) (vc : VoiceConfig) (ve : VoiceEnv)
  : option pystr * list TranscribeService :=
  let r1 := _transcribe_local ve.(local_outcome) in
  if vc.(faster_whisper_available) && truthy_opt r1 then (r1, [TLocal]) else
  let tried1 := if vc.(faster_whisper_available) then [TLocal] else [] in
  let r2 := _transcribe_huggingface ve.(huggingface_outcome) in
  if truthy_str vc.(huggingface_token) && truthy_opt r2 then (r2, tried1 ++ [THuggingFace]) else
  let tried2 := tried1 ++ (if truthy_str vc.(huggingface_token) then [THuggingFace] else []) in
  let r3 := _transcribe_openai cfg ve.(openai_outcome) in
  if truthy_str cfg.(openai_api_key) && truthy_opt r3 then (r3, tried2 ++ [TOpenAI]) else
  (None, tried2 ++ (if truthy_str cfg.(openai_api_key) then [TOpenAI] else [])).

(** The services in the order [_transcribe] tries them, whether each
    one is tried at all, and what each one returns. *)
Definition all_services : list TranscribeService := [TLocal; THuggingFace; TOpenAI].

Definition service_enabled (cfg : Config) (vc : VoiceConfig) (s : TranscribeService) : bool :=
  match s with
  | TLocal => vc.(faster_whisper_available)
  | THuggingFace => truthy_str vc.(huggingface_token)
  | TOpenAI => truthy_str cfg.(openai_api_key)
  end.

Definition service_output (cfg : Config) (ve : VoiceEnv) (s : TranscribeService) : option pystr :=
  match s with
  | TLocal => _transcribe_local ve.(local_outcome)
  | THuggingFace => _transcribe_huggingface ve.(huggingface_outcome)
  | TOpenAI => _transcribe_openai cfg ve.(openai_outcome)
  end.

(** Result of [process_voice]: the failure dictionary, or the result of
    [process_text] on the transcript. *)
Inductive VoiceResult :=
| VoiceFailed (response : pystr)
| VoiceText (r : Response).

Definition voice_failure_text : pystr := py "⚠️ Не вдалося розпізнати голос. Спробуйте ще раз.".

Definition process_voice (cfg : Config) (vc : VoiceConfig) (ve : VoiceEnv) (uid : Z)
  : M VoiceResult :=
  match fst (_transcribe cfg vc ve) with
  | Some text =>
      if truthy_str (Some text) then r ← process_text cfg text uid; mret (VoiceText r)
      else mret (VoiceFailed voice_failure_text)
  | None => mret (VoiceFailed voice_failure_text)
  end.

(* ------------------------------------------------------------------ *)
(** ** [_fetch_leads]

    The items of the leads endpoint are JSON objects whose ["id"] is an
    integer and whose ["full_name"] and ["stage"] are strings, each
    possibly absent or null.  A body that is not an object, or an
    ["items"] that is not a list, raises inside the [try]. *)

Record LeadItem := mkLeadItem {
  item_id : option Z;
  item_full_name : option pystr;
  item_stage : option pystr }.

(** An exception, or a status with the ["items"] field when present. *)
Inductive FetchOutcome := FetchRaises | FetchStatus (code : Z) (items : option (list LeadItem)).

(** [f"ID:{l.get('id')} | {l.get('full_name')} | {l.get('stage')}"]. *)
Definition lead_line (l : LeadItem) : pystr :=
  py "ID:" ++ fmt_id l.(item_id) ++ py " | " ++ fmt_str l.(item_full_name)
  ++ py " | " ++ fmt_str l.(item_stage).

Definition leads_unavailable : pystr := py "Дані недоступні.".

Definition _fetch_leads (o : FetchOutcome) : pystr :=
  match o with
  | FetchStatus code items =>
      if code =? 200 then
        join (py "\n") (map lead_line (firstn 20 match items with Some l => l | None => [] end))
      else leads_unavailable
  | FetchRaises => leads_unavailable
  end.

(* ------------------------------------------------------------------ *)
(** ** Notions used by the statements *)

(** Contexts last seen before the cutoff are stale. *)
Definition cutoff (cfg : Config) (t : Z) : Z :=
  t - Z.of_N cfg.(context_ttl_minutes) * 60000000.

(** The context [get_context] hands out at time [t]. *)
Definition fetched (cfg : Config) (t : Z) (m : gmap Z UserContext) (uid : Z) : UserContext :=
  touch t (match sweep cfg t m !! uid with Some c => c | None => new_context uid t end).

Definition upd (w : World) (uid : Z) (c : UserContext) : World :=
  mkWorld (<[uid := c]> w.(contexts)) w.(net_log).

(** After a first [get_context] in a call: [uid]'s entry is [c], seen
    now, and no entry is stale. *)
Definition settled (cfg : Config) (e : Env) (w : World) (uid : Z) (c : UserContext) : Prop :=
  w.(contexts) !! uid = Some c /\ c.(last_seen_at) = e.(now) /\
  map_Forall (fun _ d => cutoff cfg e.(now) <= d.(last_seen_at)) w.(contexts).

(** The §3 invariant of a context. *)
Definition ctx_inv (c : UserContext) : Prop :=
  is_Some c.(confirmation_pending) <-> c.(state) = awaiting_confirmation.

Definition store_inv (w : World) : Prop :=
  map_Forall (fun _ c => ctx_inv c) w.(contexts).

Definition preserves {A} (m : M A) : Prop :=
  forall e w, store_inv w -> store_inv (snd (m e w)).




(** The context after [remember_lead]. *)
Definition remembered (lid : option Z) (c : UserContext) : UserContext :=
  match lid with
  | Some l => if truthy_id (Some l) then set_last_lead l None c else c
  | None => c
  end.

(** Context and world after [clear_confirmation] when [confirmed]. *)
Definition cleared_if (confirmed : bool) (c : UserContext) : UserContext :=
  if confirmed then set_pending None idle c else c.

(** The identifier [resolve_pronoun] supplies. *)
Definition pronoun_lead (c : UserContext) (text : pystr) : option Z :=
  if any_in (lower text) pronoun_patterns && truthy_id c.(last_lead_id)
  then c.(last_lead_id) else None.

(** The world with its stale contexts dropped. *)
Definition swept (cfg : Config) (e : Env) (w : World) : World :=
  mkWorld (sweep cfg e.(now) w.(contexts)) w.(net_log).

(** The input of the deletion scenario. *)
Definition delete_12 : pystr := py "delete lead #12".

(* ------------------------------------------------------------------ *)
(** ** The monad *)

Lemma bind_step {A B} (m : M A) (f : A -> M B) e w a w' :
  m e w = (a, w') -> (m ≫= f) e w = f a e w'.
Proof. intros H. unfold mbind, M_bind. rewrite H. reflexivity. Qed.

Lemma ret_step {A} (x : A) e w : (mret x : M A) e w = (x, w).
Proof. reflexivity. Qed.

Lemma world_eta (w : World) : mkWorld w.(contexts) w.(net_log) = w.
Proof. destruct w; reflexivity. Qed.

(* ------------------------------------------------------------------ *)
(** ** The sweep *)

Section Sweep.

Context (cfg : Config).

Lemma sweep_lookup_Some t m u c :
  sweep cfg t m !! u = Some c <-> m !! u = Some c /\ cutoff cfg t <= c.(last_seen_at).
Proof.
  unfold sweep, cutoff. case_decide as Hm.
  - subst m. rewrite lookup_empty. split; [discriminate | intros [? _]; discriminate].
  - rewrite map_lookup_filter_Some. reflexivity.
Qed.

Lemma sweep_lookup_None t m u :
  sweep cfg t m !! u = None <->
  m !! u = None \/ exists c, m !! u = Some c /\ c.(last_seen_at) < cutoff cfg t.
Proof.
  destruct (sweep cfg t m !! u) as [c|] eqn:E.
  - apply sweep_lookup_Some in E as [E1 E2]. split; [discriminate|].
    intros [H|(c' & H1 & H2)]; [congruence|].
    rewrite E1 in H1. injection H1 as <-. lia.
  - split; [intros _|reflexivity].
    destruct (m !! u) as [c|] eqn:Em; [right|left; reflexivity].
    exists c; split; [reflexivity|].
    destruct (Z.lt_ge_cases c.(last_seen_at) (cutoff cfg t)) as [?|Hge]; [assumption|].
    assert (sweep cfg t m !! u = Some c) by (apply sweep_lookup_Some; auto). congruence.
Qed.

Lemma sweep_fresh t m : map_Forall (fun _ d => cutoff cfg t <= d.(last_seen_at)) (sweep cfg t m).
Proof. intros i d Hd. apply sweep_lookup_Some in Hd. tauto. Qed.

Lemma sweep_id t m :
  map_Forall (fun _ d => cutoff cfg t <= d.(last_seen_at)) m -> sweep cfg t m = m.
Proof.
  intros H. unfold sweep. case_decide; [reflexivity|].
  apply map_filter_id. intros i x Hx. exact (H i x Hx).
Qed.

Lemma sweep_idem t m : sweep cfg t (sweep cfg t m) = sweep cfg t m.
Proof. apply sweep_id, sweep_fresh. Qed.

Lemma sweep_sub t m u c : sweep cfg t m !! u = Some c -> m !! u = Some c.
Proof. rewrite sweep_lookup_Some. tauto. Qed.

Lemma cutoff_le_now t : cutoff cfg t <= t.
Proof. unfold cutoff. lia. Qed.

End Sweep.

(* ------------------------------------------------------------------ *)
(** ** Context store operations *)

Section Store.

Context (cfg : Config).

Lemma get_context_run uid e w :
  get_context cfg uid e w =
  (fetched cfg e.(now) w.(contexts) uid,
   mkWorld (<[uid := fetched cfg e.(now) w.(contexts) uid]> (sweep cfg e.(now) w.(contexts)))
     w.(net_log)).
Proof. reflexivity. Qed.

Lemma touch_id t c : c.(last_seen_at) = t -> touch t c = c.
Proof. destruct c; simpl; intros ->; reflexivity. Qed.

Lemma get_context_settles uid e w :
  settled cfg e (snd (get_context cfg uid e w)) uid (fst (get_context cfg uid e w)).
Proof.
  rewrite get_context_run. simpl. split; [|split].
  - apply lookup_insert_eq.
  - reflexivity.
  - apply map_Forall_insert_2; [apply cutoff_le_now | apply sweep_fresh].
Qed.

Lemma get_context_settled uid e w c :
  settled cfg e w uid c -> get_context cfg uid e w = (c, w).
Proof.
  intros (Hc & Ht & Hf). rewrite get_context_run.
  rewrite (sweep_id cfg _ _ Hf). unfold fetched. rewrite (sweep_id cfg _ _ Hf), Hc.
  rewrite touch_id by exact Ht. rewrite insert_id by exact Hc. rewrite world_eta.
  reflexivity.
Qed.

Lemma alter_upd w uid c f :
  w.(contexts) !! uid = Some c ->
  mkWorld (alter f uid w.(contexts)) w.(net_log) = upd w uid (f c).
Proof.
  intros Hc. unfold upd. f_equal. apply map_eq. intros j.
  rewrite lookup_alter, lookup_insert. case_decide; subst; [rewrite Hc|]; reflexivity.
Qed.

Lemma settled_upd e w uid c c' :
  settled cfg e w uid c -> c'.(last_seen_at) = e.(now) -> settled cfg e (upd w uid c') uid c'.
Proof.
  intros (Hc & Ht & Hf) Ht'. split; [|split].
  - apply lookup_insert_eq.
  - exact Ht'.
  - apply map_Forall_insert_2; [rewrite Ht'; apply cutoff_le_now | exact Hf].
Qed.

Lemma update_context_lead_settled uid lid n e w c :
  settled cfg e w uid c ->
  update_context_lead cfg uid lid n e w = (tt, upd w uid (set_last_lead lid n c)).
Proof.
  intros Hs. unfold update_context_lead.
  erewrite bind_step by (apply get_context_settled; exact Hs).
  unfold modify_contexts. f_equal. apply alter_upd, Hs.
Qed.

Lemma set_confirmation_settled uid a e w c :
  settled cfg e w uid c ->
  set_confirmation cfg uid a e w =
  (tt, upd w uid (set_pending (Some a) awaiting_confirmation c)).
Proof.
  intros Hs. unfold set_confirmation.
  erewrite bind_step by (apply get_context_settled; exact Hs).
  unfold modify_contexts. f_equal. apply alter_upd, Hs.
Qed.

Lemma clear_confirmation_settled uid e w c :
  settled cfg e w uid c ->
  clear_confirmation cfg uid e w = (tt, upd w uid (set_pending None idle c)).
Proof.
  intros Hs. unfold clear_confirmation.
  erewrite bind_step by (apply get_context_settled; exact Hs).
  unfold modify_contexts. f_equal. apply alter_upd, Hs.
Qed.

Lemma resolve_pronoun_settled text uid e w c :
  settled cfg e w uid c ->
  resolve_pronoun cfg text uid e w =
  (if any_in (lower text) pronoun_patterns && truthy_id c.(last_lead_id)
   then (text, c.(last_lead_id), c.(last_lead_name)) else (text, None, None), w).
Proof.
  intros Hs. unfold resolve_pronoun.
  erewrite bind_step by (apply get_context_settled; exact Hs).
  destruct (_ && _); reflexivity.
Qed.

Lemma build_action_response_world a uid conf e w c :
  settled cfg e w uid c -> snd (_build_action_response cfg a uid conf e w) = w.
Proof.
  intros Hs. unfold _build_action_response.
  erewrite bind_step by (apply get_context_settled; exact Hs). reflexivity.
Qed.


Lemma settled_set_pending e w uid c p st :
  settled cfg e w uid c -> (set_pending p st c).(last_seen_at) = e.(now).
Proof. intros (_ & Ht & _). exact Ht. Qed.

Lemma settled_set_last_lead e w uid c lid n :
  settled cfg e w uid c -> (set_last_lead lid n c).(last_seen_at) = e.(now).
Proof. intros (_ & Ht & _). exact Ht. Qed.

End Store.

(* ------------------------------------------------------------------ *)
(** ** Orchestrator steps *)

Section Steps.

Context (cfg : Config).

Lemma upd_upd w uid c c' : upd (upd w uid c) uid c' = upd w uid c'.
Proof. unfold upd. simpl. rewrite insert_insert_eq. reflexivity. Qed.

Lemma upd_same e w uid c : settled cfg e w uid c -> upd w uid c = w.
Proof. intros (Hc & _ & _). unfold upd. rewrite insert_id by exact Hc. apply world_eta. Qed.

Lemma remember_lead_settled uid lid e w c :
  settled cfg e w uid c ->
  remember_lead cfg uid lid e w = (tt, upd w uid (remembered lid c)).
Proof.
  intros Hs. unfold remember_lead, remembered.
  destruct lid as [l|]; [destruct (truthy_id (Some l))|].
  - apply update_context_lead_settled, Hs.
  - rewrite (upd_same _ _ _ _ Hs). reflexivity.
  - rewrite (upd_same _ _ _ _ Hs). reflexivity.
Qed.

Lemma remembered_seen lid c : (remembered lid c).(last_seen_at) = c.(last_seen_at).
Proof. unfold remembered. destruct lid as [l|]; [destruct (truthy_id _)|]; reflexivity. Qed.

Lemma cleared_if_seen b c : (cleared_if b c).(last_seen_at) = c.(last_seen_at).
Proof. destruct b; reflexivity. Qed.

Lemma settled_remembered e w uid c lid :
  settled cfg e w uid c -> settled cfg e (upd w uid (remembered lid c)) uid (remembered lid c).
Proof.
  intros Hs. apply (settled_upd cfg _ _ _ c); [exact Hs|].
  rewrite remembered_seen. apply Hs.
Qed.

Lemma settled_cleared e w uid c b :
  settled cfg e w uid c -> settled cfg e (upd w uid (cleared_if b c)) uid (cleared_if b c).
Proof.
  intros Hs. apply (settled_upd cfg _ _ _ c); [exact Hs|].
  rewrite cleared_if_seen. apply Hs.
Qed.

Lemma clear_if_settled (conf : bool) uid e w c :
  settled cfg e w uid c ->
  (if conf then clear_confirmation cfg uid else mret tt) e w
  = (tt, upd w uid (cleared_if conf c)).
Proof.
  intros Hs. destruct conf.
  - apply clear_confirmation_settled, Hs.
  - simpl. rewrite (upd_same _ _ _ _ Hs). reflexivity.
Qed.

(** [_execute_action] on a settled world. *)
Lemma execute_action_settled a uid conf e w c :
  settled cfg e w uid c ->
  _execute_action cfg a uid conf e w =
  let w1 := upd w uid (cleared_if conf c) in
  if intent_eqb a.(intent) UNKNOWN then _ai_fallback cfg a.(original_text) uid e w1
  else
    let ar := fst (_build_action_response cfg a uid conf e w1) in
    let c2 := remembered a.(entities).(lead_id) (cleared_if conf c) in
    (mkResponse true a.(original_text) (RAct a) ar.(ar_text) (Some ar.(ar_type)) None
       ar.(ar_followup_hint)
       (Some match ar.(ar_suggestions) with Some l => l | None => [] end) false,
     upd w uid (add_turn e.(now) (mkTurn e.(now) a.(original_text) a ar.(ar_text)) c2)).
Proof.
  intros Hs. unfold _execute_action.
  erewrite bind_step by (apply get_context_settled; exact Hs).
  erewrite bind_step by (apply clear_if_settled; exact Hs).
  cbv zeta. destruct (intent_eqb _ _); [reflexivity|].
  pose proof (settled_cleared _ _ _ _ conf Hs) as Hs1.
  erewrite bind_step
    by (rewrite (surjective_pairing (_build_action_response _ _ _ _ _ _)),
          (build_action_response_world _ _ _ _ _ _ _ Hs1); reflexivity).
  erewrite bind_step by (apply remember_lead_settled; exact Hs1).
  unfold ask, mbind, M_bind, modify_contexts, mret, M_ret.
  erewrite alter_upd; [|apply lookup_insert_eq].
  rewrite !upd_upd. reflexivity.
Qed.


Lemma detect_and_dispatch_settled text uid c rt rl e w :
  settled cfg e w uid c ->
  detect_and_dispatch cfg text uid c rt rl e w =
  let a := resolved_action c rt rl in
  let c1 := remembered a.(entities).(lead_id) c in
  if _needs_confirmation a then
    (simple_response true a.(original_text) (RAct a) (confirmation_text a) None true,
     upd w uid (set_pending (Some a) awaiting_confirmation c1))
  else _execute_action cfg a uid false e (upd w uid c1).
Proof.
  intros Hs. unfold detect_and_dispatch. cbv zeta.
  erewrite bind_step by (apply remember_lead_settled; exact Hs).
  destruct (_needs_confirmation _); [|reflexivity].
  erewrite bind_step by (apply set_confirmation_settled, settled_remembered, Hs).
  rewrite upd_upd. reflexivity.
Qed.

Lemma process_text_run text uid e w :
  process_text cfg text uid e w =
  let c0 := fst (get_context cfg uid e w) in
  let w1 := snd (get_context cfg uid e w) in
  let rl := pronoun_lead c0 text in
  match c0.(state), c0.(confirmation_pending) with
  | awaiting_confirmation, Some p =>
      if any_in (lower text) reply_yes_words then _execute_action cfg p uid true e w1
      else if any_in (lower text) reply_no_words then
        (simple_response true text (RIntent CANCEL) (py "❌ Скасовано.") None false,
         upd w1 uid (set_pending None idle c0))
      else detect_and_dispatch cfg text uid c0 text rl e w1
  | _, _ => detect_and_dispatch cfg text uid c0 text rl e w1
  end.
Proof.
  pose proof (get_context_settles cfg uid e w) as Hs.
  destruct (get_context cfg uid e w) as [c0 w1] eqn:Eg. cbn [fst snd] in Hs |- *.
  unfold process_text.
  erewrite bind_step by exact Eg.
  erewrite bind_step by (apply resolve_pronoun_settled, Hs).
  unfold pronoun_lead. cbv zeta.
  destruct (_ && _);
  (destruct (state c0), (confirmation_pending c0); try reflexivity;
   destruct (any_in _ reply_yes_words); [reflexivity|];
   destruct (any_in _ reply_no_words); [|reflexivity];
   erewrite bind_step by (apply clear_confirmation_settled, Hs); reflexivity).
Qed.

End Steps.

(* ------------------------------------------------------------------ *)
(** ** Preservation of the pending/state invariant *)

Section Invariant.

Context (cfg : Config).

Lemma preserves_bind {A B} (m : M A) (f : A -> M B) :
  preserves m -> (forall a, preserves (f a)) -> preserves (m ≫= f).
Proof.
  intros Hm Hf e w Hw. unfold mbind, M_bind.
  destruct (m e w) as [a w'] eqn:E. apply Hf.
  specialize (Hm e w Hw). rewrite E in Hm. exact Hm.
Qed.

Lemma preserves_ret {A} (x : A) : preserves (mret x : M A).
Proof. intros e w Hw. exact Hw. Qed.

Lemma preserves_ask : preserves ask.
Proof. intros e w Hw. exact Hw. Qed.

Lemma preserves_log c : preserves (log_call c).
Proof. intros e w Hw. exact Hw. Qed.

Lemma preserves_alter g uid :
  (forall c, ctx_inv c -> ctx_inv (g c)) -> preserves (modify_contexts (alter g uid)).
Proof.
  intros Hg e w Hw j c Hc. simpl in Hc. rewrite lookup_alter in Hc.
  case_decide as Hj.
  - subst j. destruct (contexts w !! uid) as [c0|] eqn:E; simpl in Hc; [|discriminate].
    injection Hc as <-. apply Hg, (Hw uid c0 E).
  - exact (Hw j c Hc).
Qed.

Lemma new_context_inv uid t : ctx_inv (new_context uid t).
Proof. unfold ctx_inv. simpl. split; [intros [? H]; discriminate | discriminate]. Qed.

Lemma touch_inv t c : ctx_inv c -> ctx_inv (touch t c).
Proof. destruct c; exact id. Qed.

Lemma set_last_lead_inv lid n c : ctx_inv c -> ctx_inv (set_last_lead lid n c).
Proof. destruct c; exact id. Qed.

Lemma add_turn_inv t tr c : ctx_inv c -> ctx_inv (add_turn t tr c).
Proof. destruct c; exact id. Qed.

Lemma set_pending_some_inv a c : ctx_inv (set_pending (Some a) awaiting_confirmation c).
Proof. unfold ctx_inv. simpl. split; [reflexivity | intros _; eexists; reflexivity]. Qed.

Lemma set_pending_none_inv c : ctx_inv (set_pending None idle c).
Proof. unfold ctx_inv. simpl. split; [intros [? H]; discriminate | discriminate]. Qed.

Lemma get_context_preserves uid : preserves (get_context cfg uid).
Proof.
  intros e w Hw. rewrite get_context_run. simpl.
  apply map_Forall_insert_2.
  - unfold fetched. apply touch_inv.
    destruct (sweep cfg (now e) (contexts w) !! uid) as [c|] eqn:E.
    + exact (Hw uid c (sweep_sub cfg _ _ _ _ E)).
    + apply new_context_inv.
  - intros j c Hc. exact (Hw j c (sweep_sub cfg _ _ _ _ Hc)).
Qed.

Create HintDb pres_db.
Hint Resolve preserves_ret preserves_ask preserves_log get_context_preserves : pres_db.
Hint Resolve touch_inv set_last_lead_inv add_turn_inv set_pending_some_inv
  set_pending_none_inv : pres_db.

Ltac pres :=
  repeat match goal with
  | |- preserves (_ ≫= _) => apply preserves_bind; [|intros ?]
  | |- preserves (modify_contexts (alter _ _)) =>
      apply preserves_alter; intros ??; eauto with pres_db
  | |- preserves (if ?b then _ else _) => destruct b
  | |- preserves (match ?x with _ => _ end) => destruct x
  | |- preserves (let _ := _ in _) => cbv zeta
  | |- preserves _ => solve [eauto with pres_db]
  end.

Lemma update_context_lead_preserves uid lid n : preserves (update_context_lead cfg uid lid n).
Proof. unfold update_context_lead. pres. Qed.
Hint Resolve update_context_lead_preserves : pres_db.

Lemma set_confirmation_preserves uid a : preserves (set_confirmation cfg uid a).
Proof. unfold set_confirmation. pres. Qed.
Hint Resolve set_confirmation_preserves : pres_db.

Lemma clear_confirmation_preserves uid : preserves (clear_confirmation cfg uid).
Proof. unfold clear_confirmation. pres. Qed.
Hint Resolve clear_confirmation_preserves : pres_db.

Lemma resolve_pronoun_preserves text uid : preserves (resolve_pronoun cfg text uid).
Proof. unfold resolve_pronoun. pres. Qed.
Hint Resolve resolve_pronoun_preserves : pres_db.

Lemma build_action_response_preserves a uid b : preserves (_build_action_response cfg a uid b).
Proof. unfold _build_action_response. pres. Qed.
Hint Resolve build_action_response_preserves : pres_db.

Lemma build_confirmation_message_preserves a uid : preserves (_build_confirmation_message a uid).
Proof. unfold _build_confirmation_message. pres. Qed.
Hint Resolve build_confirmation_message_preserves : pres_db.

Lemma ai_fallback_preserves text uid : preserves (_ai_fallback cfg text uid).
Proof. unfold _ai_fallback. pres. Qed.
Hint Resolve ai_fallback_preserves : pres_db.

Lemma remember_lead_preserves uid lid : preserves (remember_lead cfg uid lid).
Proof. unfold remember_lead. pres. Qed.
Hint Resolve remember_lead_preserves : pres_db.

Lemma execute_action_preserves a uid b : preserves (_execute_action cfg a uid b).
Proof. unfold _execute_action. pres. Qed.
Hint Resolve execute_action_preserves : pres_db.

Lemma detect_and_dispatch_preserves text uid c rt rl :
  preserves (detect_and_dispatch cfg text uid c rt rl).
Proof. unfold detect_and_dispatch. pres. Qed.
Hint Resolve detect_and_dispatch_preserves : pres_db.

Lemma process_text_preserves text uid : preserves (process_text cfg text uid).
Proof. unfold process_text. pres. Qed.

End Invariant.

Lemma set_confirmation_effect cfg uid a e w :
  exists c, (snd (run (set_confirmation cfg uid a) e w)).(contexts) !! uid = Some c /\
    c.(confirmation_pending) = Some a /\ c.(state) = awaiting_confirmation.
Proof.
  pose proof (get_context_settles cfg uid e w) as Hs.
  destruct (get_context cfg uid e w) as [c0 w1] eqn:Eg. cbn [fst snd] in Hs.
  unfold run, set_confirmation. erewrite bind_step by exact Eg.
  exists (set_pending (Some a) awaiting_confirmation c0).
  simpl. rewrite lookup_alter_eq. destruct Hs as (-> & _). auto.
Qed.

Lemma clear_confirmation_effect cfg uid e w :
  exists c, (snd (run (clear_confirmation cfg uid) e w)).(contexts) !! uid = Some c /\
    c.(confirmation_pending) = None /\ c.(state) = idle.
Proof.
  pose proof (get_context_settles cfg uid e w) as Hs.
  destruct (get_context cfg uid e w) as [c0 w1] eqn:Eg. cbn [fst snd] in Hs.
  unfold run, clear_confirmation. erewrite bind_step by exact Eg.
  exists (set_pending None idle c0).
  simpl. rewrite lookup_alter_eq. destruct Hs as (-> & _). auto.
Qed.

(* ------------------------------------------------------------------ *)
(** ** Sweeping first *)

Section Ttl.

Context (cfg : Config).

Lemma get_context_swept uid e w :
  get_context cfg uid e (swept cfg e w) = get_context cfg uid e w.
Proof.
  rewrite !get_context_run. unfold swept, fetched. simpl.
  rewrite sweep_idem. reflexivity.
Qed.

Ltac sweep_first := unfold mbind, M_bind; rewrite get_context_swept; reflexivity.

Lemma update_context_lead_swept uid lid n e w :
  update_context_lead cfg uid lid n e (swept cfg e w) = update_context_lead cfg uid lid n e w.
Proof. unfold update_context_lead. sweep_first. Qed.

Lemma set_confirmation_swept uid a e w :
  set_confirmation cfg uid a e (swept cfg e w) = set_confirmation cfg uid a e w.
Proof. unfold set_confirmation. sweep_first. Qed.

Lemma clear_confirmation_swept uid e w :
  clear_confirmation cfg uid e (swept cfg e w) = clear_confirmation cfg uid e w.
Proof. unfold clear_confirmation. sweep_first. Qed.

Lemma resolve_pronoun_swept text uid e w :
  resolve_pronoun cfg text uid e (swept cfg e w) = resolve_pronoun cfg text uid e w.
Proof. unfold resolve_pronoun. sweep_first. Qed.

Lemma process_text_swept text uid e w :
  process_text cfg text uid e (swept cfg e w) = process_text cfg text uid e w.
Proof. unfold process_text. sweep_first. Qed.

Lemma get_context_evicts_other uid u c e w :
  w.(contexts) !! u = Some c -> c.(last_seen_at) < cutoff cfg e.(now) -> u <> uid ->
  (snd (run (get_context cfg uid) e w)).(contexts) !! u = None.
Proof.
  intros Hc Hold Hne. unfold run. rewrite get_context_run. simpl.
  rewrite lookup_insert_ne by congruence.
  apply sweep_lookup_None. right. eauto.
Qed.

Lemma get_context_recreates uid c e w :
  w.(contexts) !! uid = Some c -> c.(last_seen_at) < cutoff cfg e.(now) ->
  fst (run (get_context cfg uid) e w) = new_context uid e.(now).
Proof.
  intros Hc Hold. unfold run. rewrite get_context_run. simpl. unfold fetched.
  assert (sweep cfg (now e) (contexts w) !! uid = None) as -> by
    (apply sweep_lookup_None; right; eauto).
  reflexivity.
Qed.

End Ttl.

(* ------------------------------------------------------------------ *)
(** ** The confirmation gate *)

Section Gate.

Context (cfg : Config).





Lemma ai_fallback_response text uid e w :
  let r := fst (_ai_fallback cfg text uid e w) in
  r.(success) = true /\ r.(res_action) = RIntent UNKNOWN /\ r.(needs_confirmation) = false.
Proof.
  unfold _ai_fallback. destruct (negb _); [repeat split|].
  unfold mbind, M_bind, ask, log_call. simpl.
  destruct (ai_request_body e.(ai_outcome)) as [?|[?|]]; repeat split.
Qed.

Lemma execute_action_response a uid conf e w c :
  settled cfg e w uid c ->
  let r := fst (_execute_action cfg a uid conf e w) in
  r.(success) = true /\ r.(needs_confirmation) = false /\
  (r.(res_action) = RIntent UNKNOWN /\ a.(intent) = UNKNOWN \/
   r.(res_action) = RAct a /\ a.(intent) <> UNKNOWN).
Proof.
  intros Hs. rewrite (execute_action_settled _ _ _ _ _ _ _ Hs). cbv zeta.
  destruct (intent_eqb a.(intent) UNKNOWN) eqn:E.
  - destruct (ai_fallback_response a.(original_text) uid e (upd w uid (cleared_if conf c)))
      as (? & ? & ?).
    repeat split; auto. left. split; auto.
    unfold intent_eqb in E. destruct (Intent_eq_dec _ _); congruence.
  - repeat split. right. split; [reflexivity|].
    unfold intent_eqb in E. destruct (Intent_eq_dec _ _); congruence.
Qed.


End Gate.




(* ------------------------------------------------------------------ *)
(** ** The detection cascade *)

Section Tiers.

Context (tl : pystr).

Lemma phrase_tier_first pre i pd post :
  any_in tl pd.(phrases) = true ->
  Forall (fun ip : Intent * PatternData => any_in tl ip.2.(phrases) = false) pre ->
  phrase_tier (pre ++ (i, pd) :: post) tl = Some i.
Proof.
  intros Hhit Hpre. induction Hpre as [|[j q] pre' Hq _ IH]; cbn in *.
  - rewrite Hhit. reflexivity.
  - rewrite Hq. exact IH.
Qed.

Lemma phrase_tier_none tbl :
  Forall (fun ip : Intent * PatternData => any_in tl ip.2.(phrases) = false) tbl ->
  phrase_tier tbl tl = None.
Proof.
  intros H. induction H as [|[j q] t Hq _ IH]; cbn in *; [reflexivity|].
  rewrite Hq. exact IH.
Qed.

Lemma keyword_tier_first pre i pd post :
  any_in tl pd.(keywords) && any_in tl pd.(verbs) = true ->
  Forall (fun ip : Intent * PatternData =>
            any_in tl ip.2.(keywords) && any_in tl ip.2.(verbs) = false) pre ->
  keyword_tier (pre ++ (i, pd) :: post) tl = Some i.
Proof.
  intros Hhit Hpre. induction Hpre as [|[j q] pre' Hq _ IH]; cbn in *.
  - rewrite Hhit. reflexivity.
  - rewrite Hq. exact IH.
Qed.

Lemma keyword_tier_none tbl :
  Forall (fun ip : Intent * PatternData =>
            any_in tl ip.2.(keywords) && any_in tl ip.2.(verbs) = false) tbl ->
  keyword_tier tbl tl = None.
Proof.
  intros H. induction H as [|[j q] t Hq _ IH]; cbn in *; [reflexivity|].
  rewrite Hq. exact IH.
Qed.

End Tiers.

Lemma detect_phrase text ctx i :
  phrase_tier PATTERNS (lower text) = Some i ->
  detect text ctx = mkAction i (fill_from_context ctx (_extract_entities text)) 90 false text.
Proof. intros H. unfold detect. cbv zeta. rewrite H. reflexivity. Qed.

Lemma detect_keyword text ctx i :
  phrase_tier PATTERNS (lower text) = None ->
  keyword_tier PATTERNS (lower text) = Some i ->
  detect text ctx = mkAction i (fill_from_context ctx (_extract_entities text)) 80 false text.
Proof. intros H1 H2. unfold detect. cbv zeta. rewrite H1, H2. reflexivity. Qed.

Lemma detect_bare text ctx :
  phrase_tier PATTERNS (lower text) = None ->
  keyword_tier PATTERNS (lower text) = None ->
  detect text ctx =
  if any_in (lower text) confirm_words then mkAction CONFIRM no_entities 95 false text
  else if any_in (lower text) cancel_words then mkAction CANCEL no_entities 95 false text
  else mkAction UNKNOWN (_extract_entities text) 30 false text.
Proof. intros H1 H2. unfold detect. cbv zeta. rewrite H1, H2. reflexivity. Qed.

(* ------------------------------------------------------------------ *)
(** ** The AI fallback *)

Section Fallback.

Context (cfg : Config).


Lemma ai_fallback_no_key text uid e w :
  truthy_str cfg.(openai_api_key) = false ->
  _ai_fallback cfg text uid e w =
  (simple_response true text (RIntent UNKNOWN) ai_clarify_text (Some ai_clarify_hint) false, w).
Proof. intros Hk. unfold _ai_fallback. rewrite Hk. reflexivity. Qed.

Lemma ai_fallback_key text uid e w :
  truthy_str cfg.(openai_api_key) = true ->
  _ai_fallback cfg text uid e w =
  (simple_response true text (RIntent UNKNOWN)
     (match ai_request_body e.(ai_outcome) with inr (Some c) => c | _ => ai_failure_text end)
     None false,
   mkWorld w.(contexts) (w.(net_log) ++ [FetchLeads; ChatCompletion])).
Proof.
  intros Hk. unfold _ai_fallback. rewrite Hk. cbn [negb].
  unfold mbind, M_bind, ask, log_call. cbv beta iota. cbn [contexts net_log].
  destruct (ai_request_body e.(ai_outcome)) as [?|[?|]];
    unfold mret, M_ret; rewrite <- app_assoc; reflexivity.
Qed.


End Fallback.

(* ------------------------------------------------------------------ *)
(** ** Transcription quality *)

Lemma assess_nonblank word_char text :
  strip text <> [] ->
  let raw := strip text in
  let c1 := (length raw <? 6)%nat in
  let c2 := (word_count word_char raw <? 2)%nat in
  let c3 := Z.max (Z.of_nat (length raw)) 1 <? 5 * Z.of_nat (weird_count word_char raw) in
  let c4 := has_run raw in
  let sc := Z.max 0 (Z.min (100 - (if c1 then 40 else 0) - (if c2 then 25 else 0)
                                 - (if c3 then 20 else 0) - (if c4 then 15 else 0)) 100) in
  assess_transcription_quality word_char text =
  mkQuality sc (if 75 <=? sc then HIGH else if 50 <=? sc then MEDIUM else LOW) (sc <? 50)
    (firstn 3
       ((if c1 then [py "Коротке повідомлення — додайте більше контексту"] else [])
        ++ (if c2 then [py "Сформулюйте команду повним реченням"] else [])
        ++ (if c3 then [py "Багато шуму в тексті — перевірте мікрофон"] else [])
        ++ (if c4 then [py "Ймовірна помилка розпізнавання — повторіть команду"] else []))).
Proof.
  intros Hne. unfold assess_transcription_quality. cbv zeta.
  destruct (strip text) as [|c0 r0]; [congruence|].
  destruct (length (c0 :: r0) <? 6)%nat, (word_count word_char (c0 :: r0) <? 2)%nat,
    (Z.max (Z.of_nat (length (c0 :: r0))) 1 <? 5 * Z.of_nat (weird_count word_char (c0 :: r0))),
    (has_run (c0 :: r0)); reflexivity.
Qed.

Lemma quality_label sc :
  let l := if 75 <=? sc then HIGH else if 50 <=? sc then MEDIUM else LOW in
  (l = HIGH <-> 75 <= sc) /\ (l = MEDIUM <-> 50 <= sc < 75) /\ (l = LOW <-> sc < 50) /\
  ((sc <? 50) = true <-> sc < 50).
Proof.
  cbv zeta. rewrite Z.ltb_lt.
  destruct (Z.leb_spec 75 sc), (Z.leb_spec 50 sc);
    repeat split; intros; first [reflexivity | discriminate | lia].
Qed.

(* ------------------------------------------------------------------ *)
(** ** The turn history *)

Section History.

Context (cfg : Config).










End History.

(* ------------------------------------------------------------------ *)
(** ** The last referenced lead *)

Section Leads.

Context (cfg : Config).







End Leads.

(* ------------------------------------------------------------------ *)
(** ** A confirmation with nothing pending *)






(* ================================================================== *)
(** * Claims *)

(** C1. A context's pending-confirmation action is present exactly when
    its state is [awaiting_confirmation]: a new context has neither, the
    empty store satisfies the invariant, every public operation
    ([get_context], [update_context_lead], [set_confirmation],
    [clear_confirmation], [resolve_pronoun], [process_text]) keeps it on
    every context of the store, [set_confirmation] sets both and
    [clear_confirmation] resets both. *)
Theorem pending_iff_awaiting (cfg : Config) :
  (forall uid t, ctx_inv (new_context uid t) /\
     (new_context uid t).(confirmation_pending) = None /\
     (new_context uid t).(state) = idle) /\
  store_inv (mkWorld ∅ []) /\
  (forall uid, preserves (get_context cfg uid)) /\
  (forall uid lid n, preserves (update_context_lead cfg uid lid n)) /\
  (forall uid a, preserves (set_confirmation cfg uid a)) /\
  (forall uid, preserves (clear_confirmation cfg uid)) /\
  (forall text uid, preserves (resolve_pronoun cfg text uid)) /\
  (forall text uid, preserves (process_text cfg text uid)) /\
  (forall uid a e w, exists c,
     (snd (run (set_confirmation cfg uid a) e w)).(contexts) !! uid = Some c /\
     c.(confirmation_pending) = Some a /\ c.(state) = awaiting_confirmation) /\
  (forall uid e w, exists c,
     (snd (run (clear_confirmation cfg uid) e w)).(contexts) !! uid = Some c /\
     c.(confirmation_pending) = None /\ c.(state) = idle).
Proof.
  split; [intros; split; [apply new_context_inv | split; reflexivity]|].
  split; [apply map_Forall_empty|].
  split; [apply get_context_preserves|].
  split; [apply update_context_lead_preserves|].
  split; [apply set_confirmation_preserves|].
  split; [apply clear_confirmation_preserves|].
  split; [apply resolve_pronoun_preserves|].
  split; [apply process_text_preserves|].
  split; [apply set_confirmation_effect | apply clear_confirmation_effect].
Qed.


(** C5. Stale contexts (last seen more than the TTL ago; 120 minutes by
    default) are deleted by the sweep, fresh ones are kept; every public
    entry point of the store behaves as on the swept store (it sweeps
    first); an access by another user leaves a stale context absent, and
    an access by its own user gets a brand-new context: empty history, no
    last identifier, no pending action, state [idle]. *)
Theorem ttl_eviction (cfg : Config) :
  default_ttl_minutes = 120%N /\
  (forall t m u c, m !! u = Some c -> c.(last_seen_at) < cutoff cfg t ->
     sweep cfg t m !! u = None) /\
  (forall t m u c, m !! u = Some c -> cutoff cfg t <= c.(last_seen_at) ->
     sweep cfg t m !! u = Some c) /\
  (forall uid e w, get_context cfg uid e (swept cfg e w) = get_context cfg uid e w) /\
  (forall uid lid n e w,
     update_context_lead cfg uid lid n e (swept cfg e w) = update_context_lead cfg uid lid n e w) /\
  (forall uid a e w, set_confirmation cfg uid a e (swept cfg e w) = set_confirmation cfg uid a e w) /\
  (forall uid e w, clear_confirmation cfg uid e (swept cfg e w) = clear_confirmation cfg uid e w) /\
  (forall text uid e w,
     resolve_pronoun cfg text uid e (swept cfg e w) = resolve_pronoun cfg text uid e w) /\
  (forall text uid e w, process_text cfg text uid e (swept cfg e w) = process_text cfg text uid e w) /\
  (forall uid u c e w, w.(contexts) !! u = Some c -> c.(last_seen_at) < cutoff cfg e.(now) ->
     u <> uid -> (snd (run (get_context cfg uid) e w)).(contexts) !! u = None) /\
  (forall uid c e w, w.(contexts) !! uid = Some c -> c.(last_seen_at) < cutoff cfg e.(now) ->
     let c' := fst (run (get_context cfg uid) e w) in
     c' = new_context uid e.(now) /\ c'.(conversation_history) = [] /\
     c'.(last_lead_id) = None /\ c'.(confirmation_pending) = None /\ c'.(state) = idle).
Proof.
  split; [reflexivity|].
  split; [intros t m u c Hc Hold; apply sweep_lookup_None; right; eauto|].
  split; [intros t m u c Hc Hnew; apply sweep_lookup_Some; auto|].
  split; [apply get_context_swept|].
  split; [apply update_context_lead_swept|].
  split; [apply set_confirmation_swept|].
  split; [apply clear_confirmation_swept|].
  split; [apply resolve_pronoun_swept|].
  split; [apply process_text_swept|].
  split; [apply get_context_evicts_other|].
  intros uid c e w Hc Hold. cbv zeta.
  rewrite (get_context_recreates cfg uid c e w Hc Hold). repeat split.
Qed.


(** C4. [detect] runs three tiers in a fixed order and the first with a
    match wins: (1) the first intent of the table one of whose phrases
    occurs in the lowered text, at confidence 0.9; (2) failing that, the
    first intent of the table with a keyword and a verb in the text, at
    0.8; (3) failing both, a confirm or cancel token, at 0.95; otherwise
    [UNKNOWN] at 0.3 with the entities still extracted.  A phrase match
    therefore wins over a keyword match naming another intent. *)
Theorem detect_three_tiers (text : pystr) (ctx : option UserContext) :
  let tl := lower text in
  let a := detect text ctx in
  let no_phrase := Forall (fun ip : Intent * PatternData => any_in tl ip.2.(phrases) = false) in
  let no_pair := Forall (fun ip : Intent * PatternData =>
                           any_in tl ip.2.(keywords) && any_in tl ip.2.(verbs) = false) in
  (forall pre i pd post, PATTERNS = pre ++ (i, pd) :: post ->
     any_in tl pd.(phrases) = true -> no_phrase pre ->
     a.(intent) = i /\ a.(confidence) = 90 /\
     a.(entities) = fill_from_context ctx (_extract_entities text)) /\
  (no_phrase PATTERNS -> forall pre i pd post, PATTERNS = pre ++ (i, pd) :: post ->
     any_in tl pd.(keywords) && any_in tl pd.(verbs) = true -> no_pair pre ->
     a.(intent) = i /\ a.(confidence) = 80 /\
     a.(entities) = fill_from_context ctx (_extract_entities text)) /\
  (no_phrase PATTERNS -> no_pair PATTERNS -> any_in tl confirm_words = true ->
     a = mkAction CONFIRM no_entities 95 false text) /\
  (no_phrase PATTERNS -> no_pair PATTERNS -> any_in tl confirm_words = false ->
     any_in tl cancel_words = true -> a = mkAction CANCEL no_entities 95 false text) /\
  (no_phrase PATTERNS -> no_pair PATTERNS -> any_in tl confirm_words = false ->
     any_in tl cancel_words = false -> a = mkAction UNKNOWN (_extract_entities text) 30 false text) /\
  (forall i1 i2, phrase_tier PATTERNS tl = Some i1 -> keyword_tier PATTERNS tl = Some i2 ->
     i1 <> i2 -> a.(intent) = i1 /\ a.(confidence) = 90).
Proof.
  cbv zeta. split; [|split; [|split; [|split; [|split]]]].
  - intros pre i pd post Ht Hhit Hpre.
    rewrite (detect_phrase text ctx i) by (rewrite Ht; apply phrase_tier_first; assumption).
    auto.
  - intros Hnp pre i pd post Ht Hhit Hpre.
    rewrite (detect_keyword text ctx i);
      [auto | apply phrase_tier_none, Hnp | rewrite Ht; apply keyword_tier_first; assumption].
  - intros Hnp Hnk Hc.
    rewrite detect_bare by (apply phrase_tier_none || apply keyword_tier_none; assumption).
    rewrite Hc. reflexivity.
  - intros Hnp Hnk Hc Hx.
    rewrite detect_bare by (apply phrase_tier_none || apply keyword_tier_none; assumption).
    rewrite Hc, Hx. reflexivity.
  - intros Hnp Hnk Hc Hx.
    rewrite detect_bare by (apply phrase_tier_none || apply keyword_tier_none; assumption).
    rewrite Hc, Hx. reflexivity.
  - intros i1 i2 H1 _ _. rewrite (detect_phrase text ctx i1 H1). auto.
Qed.


(** C7 (counterexample). The empty string is not scored by the
    penalties: they would give 1.0 - 0.4 - 0.25 = 0.35 with the hints of
    the first two penalties, but the blank-input branch returns score 0.0
    and two fixed hints of its own.  The blank-input branch does not
    read the [\w] table; it is taken here to be [is_word]. *)
Lemma quality_empty_counterexample :
  (assess_transcription_quality is_word (py "")).(score) = 0 /\
  (assess_transcription_quality is_word (py "")).(score) <> Z.max 0 (Z.min (100 - 40 - 25) 100) /\
  (assess_transcription_quality is_word (py "")).(hints) =
    [py "Спробуйте говорити чіткіше"; py "Запишіть голосове в тихому місці"] /\
  (assess_transcription_quality is_word (py "")).(hints) <>
    [py "Коротке повідомлення — додайте більше контексту";
     py "Сформулюйте команду повним реченням"].
Proof. vm_compute. repeat split; try reflexivity; intros H; discriminate H. Qed.

(** C7 (amended). An input that is blank after stripping (the empty
    string among them) gets score 0, label LOW, needs-clarification and
    two fixed hints.  Any other input starts at 1.0 and loses 0.4 when
    shorter than 6 characters, 0.25 with fewer than 2 words, 0.2 when
    more than 20% of its characters are outside the allow-list and 0.15
    on a run of 5 equal characters, clamped to [0, 1]; the label is HIGH
    iff the score is at least 0.75, MEDIUM iff it is in [0.5, 0.75), LOW
    otherwise; needs-clarification iff the score is below 0.5; the hints
    are the first 3 of those of the penalties taken, in check order.
    Words and the allow-list are read with any [\w] table [word_char],
    the Unicode one of [re] among them. *)
Theorem quality_assessment (word_char : Z -> bool) (text : pystr) :
  let q := assess_transcription_quality word_char text in
  (strip text = [] ->
   q = mkQuality 0 LOW true
         [py "Спробуйте говорити чіткіше"; py "Запишіть голосове в тихому місці"]) /\
  (strip text <> [] ->
   let raw := strip text in
   let c1 := (length raw <? 6)%nat in
   let c2 := (word_count word_char raw <? 2)%nat in
   let c3 := Z.max (Z.of_nat (length raw)) 1 <? 5 * Z.of_nat (weird_count word_char raw) in
   let c4 := has_run raw in
   q.(score) = Z.max 0 (Z.min (100 - (if c1 then 40 else 0) - (if c2 then 25 else 0)
                                  - (if c3 then 20 else 0) - (if c4 then 15 else 0)) 100) /\
   (q.(label) = HIGH <-> 75 <= q.(score)) /\
   (q.(label) = MEDIUM <-> 50 <= q.(score) < 75) /\
   (q.(label) = LOW <-> q.(score) < 50) /\
   (q.(needs_clarification) = true <-> q.(score) < 50) /\
   q.(hints) =
     firstn 3
       ((if c1 then [py "Коротке повідомлення — додайте більше контексту"] else [])
        ++ (if c2 then [py "Сформулюйте команду повним реченням"] else [])
        ++ (if c3 then [py "Багато шуму в тексті — перевірте мікрофон"] else [])
        ++ (if c4 then [py "Ймовірна помилка розпізнавання — повторіть команду"] else [])) /\
   (length q.(hints) <= 3)%nat).
Proof.
  cbv zeta. split.
  - intros Hb. unfold assess_transcription_quality. rewrite Hb. reflexivity.
  - intros Hne. rewrite (assess_nonblank word_char text Hne). cbv zeta.
    cbn [score label needs_clarification hints].
    match goal with |- context [Z.max 0 ?x] => set (sc := Z.max 0 x) end.
    destruct (quality_label sc) as (Hh & Hm & Hl & Hn).
    split; [reflexivity|]. do 4 (split; [assumption|]).
    split; [reflexivity|]. apply firstn_le_length.
Qed.



(** C3. The replies to a pending confirmation are not classified with
    the vocabulary of tier 3: "відміна" is a cancel token of [detect]
    but neither a yes nor a no reply of [process_text].  With a deletion
    pending, the reply "відміна" is detected afresh as a [CANCEL] action
    at 0.95 and executed as a generic action ("Дію 'cancel' виконано."):
    the deletion stays pending in state [awaiting_confirmation] and a
    turn is recorded. *)
Theorem vidmina_reply_keeps_pending :
  let cfg := mkConfig None 120 in
  let e := mkEnv 0 AIRaises [] in
  let pending := mkAction DELETE_LEAD (_extract_entities delete_12) 90 false delete_12 in
  let w1 := snd (process_text cfg delete_12 1 e (mkWorld ∅ [])) in
  let r := fst (process_text cfg (py "відміна") 1 e w1) in
  let w2 := snd (process_text cfg (py "відміна") 1 e w1) in
  any_in (lower (py "відміна")) cancel_words = true /\
  any_in (lower (py "відміна")) reply_no_words = false /\
  any_in (lower (py "відміна")) reply_yes_words = false /\
  fmap confirmation_pending (w1.(contexts) !! 1) = Some (Some pending) /\
  r.(res_action) = RAct (mkAction CANCEL no_entities 95 false (py "відміна")) /\
  r.(response) = py "Дію 'cancel' виконано." /\ r.(needs_confirmation) = false /\
  fmap confirmation_pending (w2.(contexts) !! 1) = Some (Some pending) /\
  fmap state (w2.(contexts) !! 1) = Some awaiting_confirmation /\
  fmap (fun c => length c.(conversation_history)) (w2.(contexts) !! 1) = Some 1%nat.
Proof. vm_compute. repeat split; reflexivity. Qed.







(* ------------------------------------------------------------------ *)
(** * Further properties of the module *)

(** ** Transcription *)



Ltac transcribe_cases :=
  unfold _transcribe; cbv zeta;
  destruct (faster_whisper_available _) eqn:?,
           (truthy_opt (_transcribe_local _)) eqn:?,
           (truthy_str (huggingface_token _)) eqn:?,
           (truthy_opt (_transcribe_huggingface _)) eqn:?,
           (truthy_str (openai_api_key _)) eqn:?,
           (truthy_opt (_transcribe_openai _ _)) eqn:?;
  cbn [andb app].

Lemma transcribe_truthy cfg vc ve :
  fst (_transcribe cfg vc ve) = None \/ truthy_opt (fst (_transcribe cfg vc ve)) = true.
Proof. transcribe_cases; cbn [fst]; auto. Qed.

(** X1. [_transcribe] tries only the configured services, in the order
    local model, HuggingFace, OpenAI; it stops at the first one that
    returns a non-empty text, and when none does it has tried every
    configured service and returns [None].  Its result is [None] or a
    non-empty string. *)
Theorem transcribe_tries_enabled cfg vc ve :
  let '(r, tried) := _transcribe cfg vc ve in
  tried `prefix_of` List.filter (service_enabled cfg vc) all_services /\
  (r = None -> tried = List.filter (service_enabled cfg vc) all_services) /\
  (r = None \/ truthy_opt r = true).
Proof.
  pose proof (transcribe_truthy cfg vc ve) as Ht.
  destruct (_transcribe cfg vc ve) as [r tried] eqn:E. cbn [fst] in Ht.
  split; [|split; [|exact Ht]]; revert E; unfold all_services, service_enabled;
  transcribe_cases; intros E; injection E as <- <-; cbn [List.filter];
  repeat match goal with H : ?b = _ |- context [?b] => rewrite H end;
  first [ eexists; reflexivity | intros; reflexivity
        | intros Hn; rewrite Hn in *; discriminate ].
Qed.

(** X2. The transcript [_transcribe] returns is the output of the last
    service it tried, and every service it tried before that one
    returned nothing usable ([None] or an empty string); when it returns
    [None], no service it tried returned a usable text. *)
Theorem transcribe_fallback_source cfg vc ve :
  let '(r, tried) := _transcribe cfg vc ve in
  (forall t, r = Some t ->
     exists pre s, tried = pre ++ [s] /\ service_output cfg ve s = Some t /\
       Forall (fun s' => truthy_opt (service_output cfg ve s') = false) pre) /\
  (r = None -> Forall (fun s' => truthy_opt (service_output cfg ve s') = false) tried).
Proof.
  destruct (_transcribe cfg vc ve) as [r tried] eqn:E.
  revert E; unfold service_output; transcribe_cases; intros E; injection E as <- <-;
  (split; [intros t Ht | intros Hn]);
  first [ discriminate
        | solve [ rewrite Hn in *; discriminate ]
        | solve [ repeat constructor; assumption ]
        | solve [ eexists [], _; split; [reflexivity|]; split; [exact Ht|]; constructor ]
        | solve [ eexists [_], _; split; [reflexivity|]; split; [exact Ht|];
                  repeat constructor; assumption ]
        | solve [ eexists [_; _], _; split; [reflexivity|]; split; [exact Ht|];
                  repeat constructor; assumption ]
        | idtac ].
Qed.




(** X4. A local transcription with two or more segments is never empty,
    even when every segment is blank: once the local model is available
    and yields such a transcription, [_transcribe] returns it without
    trying another service. *)
Theorem transcribe_local_segments cfg vc segs h o :
  faster_whisper_available vc = true -> (2 <= length segs)%nat ->
  _transcribe cfg vc (mkVoiceEnv (LocalSegments segs) h o)
    = (Some (join (py " ") (map strip segs)), [TLocal]).
Proof.
  intros Hf Hl. destruct segs as [|x [|y segs]]; cbn [length] in Hl; [lia|lia|].
  unfold _transcribe. cbn [local_outcome _transcribe_local]. rewrite Hf.
  cbn [map join concat]. unfold truthy_opt. rewrite app_assoc.
  destruct (strip x); reflexivity.
Qed.

(** ** Voice input *)

(** X5. [process_voice] either fails, exactly when no transcript was
    obtained, answering the fixed "could not recognise" message and
    leaving the contexts and the network log untouched (no context is
    created or refreshed), or is [process_text] on the transcript. *)
Theorem process_voice_cases cfg vc ve uid e w :
  process_voice cfg vc ve uid e w =
  match fst (_transcribe cfg vc ve) with
  | None => (VoiceFailed voice_failure_text, w)
  | Some t => let '(r, w') := process_text cfg t uid e w in (VoiceText r, w')
  end.
Proof.
  unfold process_voice.
  destruct (transcribe_truthy cfg vc ve) as [Hn | Ht].
  - rewrite Hn. reflexivity.
  - destruct (fst (_transcribe cfg vc ve)) as [t|]; [|discriminate].
    unfold truthy_opt in Ht. rewrite Ht. unfold mbind, M_bind.
    destruct (process_text cfg t uid e w). reflexivity.
Qed.

(** X6. With no local model, no HuggingFace token and no OpenAI key,
    [_transcribe] calls no service and every voice message fails without
    any effect on the manager's state. *)
Theorem process_voice_unconfigured cfg vc ve uid e w :
  faster_whisper_available vc = false -> truthy_str vc.(huggingface_token) = false ->
  truthy_str cfg.(openai_api_key) = false ->
  _transcribe cfg vc ve = (None, []) /\
  process_voice cfg vc ve uid e w = (VoiceFailed voice_failure_text, w).
Proof.
  intros Hf Hh Hk.
  assert (E : _transcribe cfg vc ve = (None, [])).
  { unfold _transcribe. rewrite Hf, Hh, Hk. reflexivity. }
  split; [exact E|]. unfold process_voice. rewrite E. reflexivity.
Qed.


(** X6 at a concrete input. *)
Lemma process_voice_unconfigured_witness :
  faster_whisper_available (mkVoiceConfig false None) = false /\
  truthy_str (huggingface_token (mkVoiceConfig false None)) = false /\
  truthy_str (openai_api_key (mkConfig (Some []) 120)) = false /\
  process_voice (mkConfig (Some []) 120) (mkVoiceConfig false None)
    (mkVoiceEnv (LocalSegments [py "так"]) HttpRaises HttpRaises) 1
    (mkEnv 0 AIRaises []) (mkWorld ∅ [])
  = (VoiceFailed voice_failure_text, mkWorld ∅ []).
Proof.
  split; [reflexivity|]. split; [reflexivity|]. split; [reflexivity|].
  exact (proj2 (process_voice_unconfigured (mkConfig (Some []) 120) (mkVoiceConfig false None)
    (mkVoiceEnv (LocalSegments [py "так"]) HttpRaises HttpRaises) 1
    (mkEnv 0 AIRaises []) (mkWorld ∅ []) eq_refl eq_refl eq_refl)).
Defined.




(** X4 at a concrete input. *)
Lemma transcribe_local_segments_witness :
  faster_whisper_available (mkVoiceConfig true None) = true /\
  (2 <= length [py " "; py " "])%nat /\
  _transcribe (mkConfig None 120) (mkVoiceConfig true None)
    (mkVoiceEnv (LocalSegments [py " "; py " "]) HttpRaises HttpRaises)
  = (Some (py " "), [TLocal]).
Proof.
  split; [reflexivity|]. split; [cbn; lia|].
  exact (transcribe_local_segments (mkConfig None 120) (mkVoiceConfig true None)
    [py " "; py " "] HttpRaises HttpRaises eq_refl (le_n 2)).
Defined.

(** ** Numbers in text *)

Definition digit_cp (c : Z) : Prop := 48 <= c <= 57.

Lemma digits_of_digits f n : 0 <= n -> Forall digit_cp (digits_of f n).
Proof.
  revert n. induction f as [|f IH]; intros n Hn; cbn [digits_of]; [constructor|].
  destruct (n <? 10) eqn:E.
  - apply Z.ltb_lt in E. constructor; [unfold digit_cp; lia|constructor].
  - apply Forall_app; split.
    + apply IH. apply Z.div_pos; lia.
    + constructor; [|constructor]. unfold digit_cp.
      pose proof (Z.mod_pos_bound n 10). lia.
Qed.

Lemma digits_of_nonempty f n : digits_of (S f) n <> [].
Proof.
  cbn [digits_of]. destruct (n <? 10); [discriminate|].
  intros H. apply app_eq_nil in H as [_ H]. discriminate.
Qed.

Lemma int_of_digits_snoc s c : int_of_digits (s ++ [c]) = int_of_digits s * 10 + (c - 48).
Proof. unfold int_of_digits. rewrite fold_left_app. reflexivity. Qed.

Lemma digits_of_int f n :
  0 <= n -> n < 10 ^ Z.of_nat f -> int_of_digits (digits_of f n) = n.
Proof.
  revert n. induction f as [|f IH]; intros n H0 H1.
  - cbn in H1. cbn. lia.
  - cbn [digits_of]. destruct (n <? 10) eqn:E.
    + cbn. lia.
    + rewrite int_of_digits_snoc, IH.
      * pose proof (Z.div_mod n 10). lia.
      * apply Z.div_pos; lia.
      * apply Z.div_lt_upper_bound; [lia|].
        rewrite Nat2Z.inj_succ, Z.pow_succ_r in H1 by lia. lia.
Qed.

Lemma str_int_fuel n : 0 <= n -> n < 10 ^ Z.of_nat (Z.to_nat (Z.log2 n + 2)).
Proof.
  intros Hn. pose proof (Z.log2_nonneg n).
  rewrite Z2Nat.id by lia.
  assert (n < 2 ^ (Z.log2 n + 1)).
  { destruct (Z.eq_dec n 0) as [->|Hz]; [cbn; lia|].
    replace (Z.log2 n + 1) with (Z.succ (Z.log2 n)) by lia.
    apply (proj2 (Z.log2_spec n ltac:(lia))). }
  assert (2 ^ (Z.log2 n + 1) <= 10 ^ (Z.log2 n + 1)) by (apply Z.pow_le_mono_l; lia).
  assert (10 ^ (Z.log2 n + 1) <= 10 ^ (Z.log2 n + 2)) by (apply Z.pow_le_mono_r; lia).
  lia.
Qed.

Lemma str_int_nonneg n : 0 <= n ->
  str_int n = digits_of (Z.to_nat (Z.log2 n + 2)) n.
Proof. intros Hn. unfold str_int. destruct (n <? 0) eqn:E; [apply Z.ltb_lt in E; lia|reflexivity]. Qed.

Lemma str_int_digits n :
  0 <= n ->
  str_int n <> [] /\ Forall digit_cp (str_int n) /\ int_of_digits (str_int n) = n.
Proof.
  intros Hn. rewrite str_int_nonneg by exact Hn.
  split; [|split].
  - replace (Z.to_nat (Z.log2 n + 2)) with (S (Z.to_nat (Z.log2 n + 1))).
    + apply digits_of_nonempty.
    + pose proof (Z.log2_nonneg n). lia.
  - apply digits_of_digits, Hn.
  - apply digits_of_int; [exact Hn|]. apply str_int_fuel, Hn.
Qed.

(** A number below [10 ^ k] has at most [k] digits. *)
Lemma digits_of_length f n k :
  0 <= n -> n < 10 ^ Z.of_nat (S k) -> (length (digits_of f n) <= S k)%nat.
Proof.
  revert n k. induction f as [|f IH]; intros n k H0 H1; cbn [digits_of]; [cbn; lia|].
  destruct (n <? 10) eqn:E; [cbn; lia|].
  apply Z.ltb_ge in E.
  destruct k as [|k]; [cbn in H1; lia|].
  rewrite length_app. cbn [length].
  assert (length (digits_of f (n / 10)) <= S k)%nat; [|lia].
  apply IH; [apply Z.div_pos; lia|].
  apply Z.div_lt_upper_bound; [lia|].
  rewrite Nat2Z.inj_succ, Z.pow_succ_r in H1 by lia. exact H1.
Qed.

Lemma str_int_length n :
  0 <= n -> n < 10 ^ 4300 -> (length (str_int n) <= max_str_digits)%nat.
Proof.
  intros H0 H1. rewrite str_int_nonneg by exact H0.
  apply digits_of_length; [exact H0|]. exact H1.
Qed.

(** X7. [int(str(n))] is [n] for [0 <= n < 10 ^ 4300]: a non-negative
    number printed as in the prompts (lead references, analysis titles)
    is written with decimal digits only, at least one and at most 4300,
    so that [int()] accepts it, and the digit reader of the extractor
    reads it back unchanged. *)
Theorem str_int_round_trip n :
  0 <= n -> n < 10 ^ 4300 ->
  str_int n <> [] /\ Forall digit_cp (str_int n) /\
  (length (str_int n) <= max_str_digits)%nat /\ int_of_digits (str_int n) = n.
Proof.
  intros H0 H1. destruct (str_int_digits n H0) as (Hne & Hd & Hi).
  split; [exact Hne|]. split; [exact Hd|]. split; [|exact Hi].
  apply str_int_length; assumption.
Qed.

(** X7 at a concrete input. *)
Lemma str_int_round_trip_witness :
  0 <= 1234 /\ 1234 < 10 ^ 4300 /\ int_of_digits (str_int 1234) = 1234.
Proof.
  split; [lia|]. split; [vm_compute; reflexivity|].
  exact (proj2 (proj2 (proj2 (str_int_round_trip 1234 ltac:(lia) ltac:(vm_compute; reflexivity))))).
Defined.

(** ** Reading a lead reference back *)

(** The class a pattern has to match first, when it starts with one. *)
Fixpoint head_cls (r : regex) : option (Z -> bool) :=
  match r with
  | RCls p => Some p
  | RSeq r1 _ => head_cls r1
  | RGroup r1 => head_cls r1
  | _ => None
  end.

Lemma bt_head {R} r p s g (k : pystr -> capture -> option R) x :
  head_cls r = Some p -> bt r s g k = Some x -> exists c s', s = c :: s' /\ p c = true.
Proof.
  revert s g k x. induction r as [q|r1 IH1 r2 _|r1 _|r1 _|r1 IH1]; intros s g k x Hh Hb;
    cbn [head_cls] in Hh; try discriminate.
  - injection Hh as <-. cbn [bt] in Hb. destruct s as [|c s']; [discriminate|].
    destruct (q c) eqn:E; [eauto|discriminate].
  - exact (IH1 _ _ _ _ Hh Hb).
  - exact (IH1 _ _ _ _ Hh Hb).
Qed.

(** A pattern whose first class matches no character of the text is not
    found in it. *)
Lemma search_head_none r p s :
  head_cls r = Some p -> forallb (fun c => negb (p c)) s = true -> search r s = None.
Proof.
  intros Hh. induction s as [|c s IH]; intros Hs; cbn [search].
  - destruct (bt r [] None _) eqn:E; [|reflexivity].
    destruct (bt_head _ _ _ _ _ _ Hh E) as (? & ? & ? & _). discriminate.
  - cbn [forallb] in Hs. apply andb_true_iff in Hs as [Hc Hs].
    destruct (bt r (c :: s) None _) eqn:E.
    + destruct (bt_head _ _ _ _ _ _ Hh E) as (c' & s' & Heq & Hp).
      injection Heq as <- <-. rewrite Hp in Hc. discriminate.
    + exact (IH Hs).
Qed.

(** A greedy [p*] takes every character of a run of [p]s when the rest
    of the pattern accepts what follows. *)
Lemma bt_star_all {R} p s g (k : pystr -> capture -> option R) x :
  forallb p s = true -> k [] g = Some x -> bt (RStar (RCls p)) s g k = Some x.
Proof.
  induction s as [|c s IH]; intros Hs Hk; [exact Hk|].
  cbn [forallb] in Hs. apply andb_true_iff in Hs as [Hc Hs].
  cbn [bt length]. rewrite Hc.
  assert (Hl : (length s <? S (length s))%nat = true) by (apply Nat.ltb_lt; lia).
  rewrite Hl. specialize (IH Hs Hk). cbn [bt] in IH. rewrite IH. reflexivity.
Qed.

Lemma lower_cp_digit c : digit_cp c \/ c = 35 -> lower_cp c = c.
Proof.
  unfold digit_cp, lower_cp. intros H.
  repeat match goal with |- context [if ?b then _ else _] =>
    let E := fresh in destruct b eqn:E;
    [rewrite ?andb_true_iff, ?Z.leb_le, ?Z.eqb_eq in E; lia|] end.
  reflexivity.
Qed.

Lemma forallb_digits (p : Z -> bool) s :
  Forall digit_cp s -> (forall c, digit_cp c -> p c = true) -> forallb p s = true.
Proof.
  intros Hs Hp. induction Hs as [|c s Hc _ IH]; [reflexivity|].
  cbn [forallb]. rewrite (Hp c Hc). exact IH.
Qed.

Lemma bt_seq {R} r1 r2 s g (k : pystr -> capture -> option R) :
  bt (RSeq r1 r2) s g k = bt r1 s g (fun s1 g1 => bt r2 s1 g1 k).
Proof. reflexivity. Qed.

Lemma bt_cls {R} p c s g (k : pystr -> capture -> option R) :
  bt (RCls p) (c :: s) g k = if p c then k s g else None.
Proof. reflexivity. Qed.

Lemma bt_group {R} r s g (k : pystr -> capture -> option R) :
  bt (RGroup r) s g k = bt r s g (fun s' _ => k s' (Some (s, s'))).
Proof. reflexivity. Qed.

Lemma search_hash_digits ds :
  ds <> [] -> Forall digit_cp ds ->
  search (seql [lit 35; RGroup (plus dig)]) (35 :: ds) = Some (35 :: ds, Some ds).
Proof.
  intros Hne Hd. destruct ds as [|d ds]; [congruence|].
  inversion Hd as [|? ? Hd0 Hds]; subst.
  assert (Hb : bt (seql [lit 35; RGroup (plus dig)]) (35 :: d :: ds) None
                 (fun e g => Some (e, g)) = Some ([], Some (d :: ds, []))).
  { change (seql [lit 35; RGroup (plus dig)])
      with (RSeq (RCls (Z.eqb 35)) (RGroup (RSeq (RCls is_digit) (RStar (RCls is_digit))))).
    rewrite bt_seq, bt_cls, Z.eqb_refl. cbv beta.
    rewrite bt_group, bt_seq, bt_cls.
    assert (Hdig : is_digit d = true) by (unfold is_digit, digit_cp in *; lia).
    rewrite Hdig. cbv beta.
    apply bt_star_all; [|reflexivity].
    apply forallb_digits; [exact Hds|]. unfold is_digit, digit_cp. intros c Hc. lia. }
  cbn [search]. rewrite Hb.
  unfold span. rewrite !Nat.sub_0_r. cbn [length firstn].
  rewrite List.firstn_all. reflexivity.
Qed.

(** X8. The prompt's lead reference read back: for every [n] with
    [0 <= n < 10 ^ 4300], the entity extractor finds lead [n] in the text
    ["#n"]. *)
Theorem extract_hash_lead_id n :
  0 <= n -> n < 10 ^ 4300 -> (_extract_entities (py "#" ++ str_int n)).(lead_id) = Some n.
Proof.
  intros Hn Hb. pose proof (str_int_length n Hn Hb) as Hlen.
  destruct (str_int_digits n Hn) as (Hne & Hd & Hi).
  unfold _extract_entities. cbn [lead_id].
  change (py "#") with [35]. cbn [app].
  assert (Hl : lower (35 :: str_int n) = 35 :: str_int n).
  { unfold lower. cbn [map]. rewrite lower_cp_digit by (right; reflexivity). f_equal.
    clear Hne Hi Hlen. induction Hd as [|c s Hc _ IH]; [reflexivity|].
    cbn [map]. rewrite IH, lower_cp_digit by (left; exact Hc). reflexivity. }
  rewrite Hl.
  assert (Hnone : forall q, q <> 35 -> ~ digit_cp q ->
            forallb (fun c => negb (Z.eqb q c)) (35 :: str_int n) = true).
  { intros q H35 Hq. cbn [forallb]. apply andb_true_iff. split.
    - apply negb_true_iff, Z.eqb_neq. exact H35.
    - apply forallb_digits; [exact Hd|]. intros c Hc. apply negb_true_iff, Z.eqb_neq.
      intros ->. exact (Hq Hc). }
  unfold lead_patterns. cbn [first_lead_id].
  rewrite (search_head_none _ (Z.eqb 1083)); [|reflexivity|apply Hnone; unfold digit_cp; lia].
  rewrite (search_head_none _ (Z.eqb 108)); [|reflexivity|apply Hnone; unfold digit_cp; lia].
  rewrite (search_head_none _ (Z.eqb 1076)); [|reflexivity|apply Hnone; unfold digit_cp; lia].
  rewrite (search_head_none _ (Z.eqb 1076)); [|reflexivity|apply Hnone; unfold digit_cp; lia].
  rewrite search_hash_digits by assumption.
  apply Nat.ltb_ge in Hlen. rewrite Hlen, Hi. reflexivity.
Qed.


(** X8 at a concrete input. *)
Lemma extract_hash_lead_id_witness :
  0 <= 507 /\ 507 < 10 ^ 4300 /\
  (_extract_entities (py "#" ++ str_int 507)).(lead_id) = Some 507.
Proof.
  split; [lia|]. split; [vm_compute; reflexivity|].
  exact (extract_hash_lead_id 507 ltac:(lia) ltac:(vm_compute; reflexivity)).
Defined.

(** ** The leads context of the AI fallback *)




Lemma count_nl_concat xs :
  Forall (fun x => count_occ Z.eq_dec x 10 = 0%nat) xs ->
  count_occ Z.eq_dec (concat (map (fun y => [10] ++ y) xs)) 10 = length xs.
Proof.
  induction 1 as [|x xs Hx _ IH]; [reflexivity|].
  cbn [map concat length]. rewrite count_occ_app. cbn [app count_occ].
  destruct (Z.eq_dec 10 10) as [_|]; [|congruence].
  cbn [app] in IH. rewrite Hx, IH. lia.
Qed.

Lemma count_nl_join xs :
  Forall (fun x => count_occ Z.eq_dec x 10 = 0%nat) xs ->
  count_occ Z.eq_dec (join [10] xs) 10 = Nat.pred (length xs).
Proof.
  intros H. destruct H as [|x xs Hx Hxs]; [reflexivity|].
  cbn [join length Nat.pred]. rewrite count_occ_app, Hx, count_nl_concat by exact Hxs.
  reflexivity.
Qed.

Lemma count_no_nl s : Forall digit_cp s -> count_occ Z.eq_dec s 10 = 0%nat.
Proof.
  intros H. apply count_occ_not_In. intros Hin.
  rewrite List.Forall_forall in H. specialize (H _ Hin). unfold digit_cp in H. lia.
Qed.

Lemma str_int_no_nl n : count_occ Z.eq_dec (str_int n) 10 = 0%nat.
Proof.
  unfold str_int. destruct (n <? 0) eqn:E.
  - apply Z.ltb_lt in E. cbn [count_occ].
    destruct (Z.eq_dec 45 10) as [Hc|_]; [discriminate|].
    apply count_no_nl, digits_of_digits. lia.
  - apply Z.ltb_ge in E. apply count_no_nl, digits_of_digits. exact E.
Qed.

Lemma lead_line_no_nl it :
  count_occ Z.eq_dec (fmt_str it.(item_full_name)) 10 = 0%nat ->
  count_occ Z.eq_dec (fmt_str it.(item_stage)) 10 = 0%nat ->
  count_occ Z.eq_dec (lead_line it) 10 = 0%nat.
Proof.
  intros Hn Hs. unfold lead_line. rewrite !count_occ_app, Hn, Hs.
  assert (Hid : count_occ Z.eq_dec (fmt_id it.(item_id)) 10 = 0%nat).
  { unfold fmt_id. destruct (item_id it); [apply str_int_no_nl|vm_compute; reflexivity]. }
  rewrite Hid. vm_compute. reflexivity.
Qed.

(** X10. The leads context lists at most the first 20 items: items after the
    20th never reach it, and when no name or stage contains a newline
    it has exactly one line per listed item. *)
Theorem fetch_leads_first_20 l :
  _fetch_leads (FetchStatus 200 (Some l)) = _fetch_leads (FetchStatus 200 (Some (firstn 20 l))) /\
  (Forall (fun it => count_occ Z.eq_dec (fmt_str it.(item_full_name)) 10 = 0%nat /\
                     count_occ Z.eq_dec (fmt_str it.(item_stage)) 10 = 0%nat) l ->
   count_occ Z.eq_dec (_fetch_leads (FetchStatus 200 (Some l))) 10
   = Nat.pred (Nat.min (length l) 20)).
Proof.
  unfold _fetch_leads. rewrite Z.eqb_refl. split.
  - rewrite firstn_firstn. reflexivity.
  - intros H. assert (E : py "\n" = [10]) by (vm_compute; reflexivity). rewrite E.
    rewrite count_nl_join, length_map, length_firstn, Nat.min_comm; [reflexivity|].
    apply List.Forall_map. apply Forall_take.
    eapply List.Forall_impl; [|exact H]. intros it [Hn Hs]. apply lead_line_no_nl; assumption.
Qed.

(** ** What one call of [process_text] touches *)

Section Frame.

Context (cfg : Config).


Lemma upd_log w uid c : (upd w uid c).(net_log) = w.(net_log).
Proof. reflexivity. Qed.


(** The network calls of an executed action: none, or the leads fetch
    and the chat completion of the AI fallback, which needs a key. *)
Lemma execute_action_net a uid conf e w c :
  settled cfg e w uid c ->
  let '(r, w') := _execute_action cfg a uid conf e w in
  w'.(net_log) = w.(net_log) \/
  (w'.(net_log) = w.(net_log) ++ [FetchLeads; ChatCompletion] /\
   truthy_str cfg.(openai_api_key) = true /\ r.(res_action) = RIntent UNKNOWN).
Proof.
  intros Hs. rewrite (execute_action_settled _ _ _ _ _ _ _ Hs). cbv zeta.
  destruct (intent_eqb _ _); [|left; reflexivity].
  destruct (truthy_str cfg.(openai_api_key)) eqn:Hk.
  - rewrite (ai_fallback_key cfg _ _ _ _ Hk). right. repeat split.
  - rewrite (ai_fallback_no_key cfg _ _ _ _ Hk). left. reflexivity.
Qed.


Lemma detect_and_dispatch_net text uid c rt rl e w :
  settled cfg e w uid c ->
  let '(r, w') := detect_and_dispatch cfg text uid c rt rl e w in
  w'.(net_log) = w.(net_log) \/
  (w'.(net_log) = w.(net_log) ++ [FetchLeads; ChatCompletion] /\
   truthy_str cfg.(openai_api_key) = true /\ r.(res_action) = RIntent UNKNOWN).
Proof.
  intros Hs. rewrite (detect_and_dispatch_settled _ _ _ _ _ _ _ _ Hs). cbv zeta.
  destruct (_needs_confirmation _); [left; reflexivity|].
  exact (execute_action_net _ _ _ _ _ _ (settled_remembered cfg e w uid c _ Hs)).
Qed.

End Frame.




(** X12. The only network traffic of [process_text] is the AI fallback's:
    a call either issues no request, or exactly the leads fetch followed
    by the chat completion, and then a key is configured and the answer
    is the fallback's [UNKNOWN] response. *)
Theorem process_text_net_log cfg text uid e w :
  let '(r, w') := process_text cfg text uid e w in
  w'.(net_log) = w.(net_log) \/
  (w'.(net_log) = w.(net_log) ++ [FetchLeads; ChatCompletion] /\
   truthy_str cfg.(openai_api_key) = true /\ r.(res_action) = RIntent UNKNOWN).
Proof.
  rewrite process_text_run.
  pose proof (get_context_settles cfg uid e w) as Hs.
  pose proof (get_context_run cfg uid e w) as Hg.
  destruct (get_context cfg uid e w) as [c0 w1]. cbn [fst snd] in Hs |- *.
  assert (H1 : w1.(net_log) = w.(net_log)) by (injection Hg as _ ->; reflexivity).
  cbv zeta. rewrite <- H1.
  destruct (state c0), (confirmation_pending c0) as [p|];
    try (apply detect_and_dispatch_net; assumption).
  destruct (any_in _ reply_yes_words); [eapply execute_action_net; eassumption|].
  destruct (any_in _ reply_no_words); [left; reflexivity|].
  apply detect_and_dispatch_net; assumption.
Qed.

(** ** Detection never proposes [SHOW_LEAD] *)

Lemma phrase_tier_in tbl tl i : phrase_tier tbl tl = Some i -> In i (map fst tbl).
Proof.
  induction tbl as [|[j pd] t IH]; cbn [phrase_tier map fst In]; [discriminate|].
  destruct (any_in tl pd.(phrases)); [intros H; injection H as ->; left; reflexivity|].
  intros H. right. exact (IH H).
Qed.

Lemma keyword_tier_in tbl tl i : keyword_tier tbl tl = Some i -> In i (map fst tbl).
Proof.
  induction tbl as [|[j pd] t IH]; cbn [keyword_tier map fst In]; [discriminate|].
  destruct (_ && _); [intros H; injection H as ->; left; reflexivity|].
  intros H. right. exact (IH H).
Qed.

Lemma patterns_intents :
  map fst PATTERNS = [CREATE_LEAD; LIST_LEADS; SHOW_NOTES; ADD_NOTE; STATS; SEARCH; SALES;
                      ANALYZE_LEAD; EDIT_LEAD; DELETE_LEAD].
Proof. reflexivity. Qed.

(** X13. [detect] never yields [SHOW_LEAD], which has no entry in the
    pattern table; the action it builds never asks for confirmation by
    itself ([requires_confirmation] stays false, the gate decides from
    the intent) and records the input as its original text. *)
Theorem detect_never_show_lead text ctx :
  let a := detect text ctx in
  a.(intent) <> SHOW_LEAD /\ a.(requires_confirmation) = false /\ a.(original_text) = text.
Proof.
  unfold detect. cbv zeta.
  destruct (phrase_tier PATTERNS (lower text)) as [i|] eqn:E1.
  - apply phrase_tier_in in E1. rewrite patterns_intents in E1.
    cbn [intent requires_confirmation original_text]. repeat split.
    intros ->. cbn in E1. intuition discriminate.
  - destruct (keyword_tier PATTERNS (lower text)) as [i|] eqn:E2.
    + apply keyword_tier_in in E2. rewrite patterns_intents in E2.
      cbn [intent requires_confirmation original_text]. repeat split.
      intros ->. cbn in E2. intuition discriminate.
    + destruct (any_in _ confirm_words); [repeat split; discriminate|].
      destruct (any_in _ cancel_words); repeat split; discriminate.
Qed.

(** ** The result of [process_text] *)

Lemma detect_text text ctx : (detect text ctx).(original_text) = text.
Proof.
  unfold detect. destruct (phrase_tier _ _); [reflexivity|].
  destruct (keyword_tier _ _); [reflexivity|].
  destruct (any_in _ confirm_words); [reflexivity|].
  destruct (any_in _ cancel_words); reflexivity.
Qed.

Lemma resolved_action_text c rt rl : (resolved_action c rt rl).(original_text) = rt.
Proof. unfold resolved_action. destruct (_ && _); apply detect_text. Qed.

Lemma ai_fallback_shape cfg text uid e w :
  let r := fst (_ai_fallback cfg text uid e w) in
  r.(success) = true /\ r.(res_text) = text /\ r.(response_type) = None.
Proof.
  unfold _ai_fallback. destruct (negb _); [repeat split|].
  unfold mbind, M_bind, ask, log_call. cbv beta iota.
  destruct (ai_request_body e.(ai_outcome)) as [?|[?|]]; repeat split.
Qed.

Lemma build_action_response_type cfg a uid conf e w :
  conf = true \/ a.(intent) <> CREATE_LEAD ->
  (fst (_build_action_response cfg a uid conf e w)).(ar_type) <> py "confirmation_needed".
Proof.
  intros Hc. unfold _build_action_response, mbind, M_bind.
  destruct (get_context cfg uid e w) as [c w']. unfold mret, M_ret. cbn [fst].
  destruct (intent a); [destruct conf; [|destruct Hc as [Hc|Hc]; [discriminate|congruence]]|..];
  repeat match goal with |- context [if ?b then _ else _] => destruct b end;
  cbn [ar_type]; vm_compute; discriminate.
Qed.

Lemma execute_action_shape cfg a uid conf e w c :
  settled cfg e w uid c ->
  let r := fst (_execute_action cfg a uid conf e w) in
  r.(success) = true /\ r.(res_text) = a.(original_text) /\
  (conf = true \/ a.(intent) <> CREATE_LEAD ->
   r.(response_type) <> Some (py "confirmation_needed")).
Proof.
  intros Hs. rewrite (execute_action_settled _ _ _ _ _ _ _ Hs). cbv zeta.
  destruct (intent_eqb _ _).
  - destruct (ai_fallback_shape cfg a.(original_text) uid e (upd w uid (cleared_if conf c)))
      as (H1 & H2 & H3).
    split; [exact H1|]. split; [exact H2|]. intros _. rewrite H3. discriminate.
  - cbn [fst success res_text response_type]. split; [reflexivity|]. split; [reflexivity|].
    intros Hc He.
    apply (build_action_response_type cfg a uid conf e (upd w uid (cleared_if conf c)) Hc).
    congruence.
Qed.

Lemma needs_confirmation_not_create a :
  _needs_confirmation a = false -> a.(intent) <> CREATE_LEAD.
Proof. unfold _needs_confirmation. intros H He. rewrite He in H. discriminate. Qed.

Lemma detect_and_dispatch_shape cfg text uid c rt e w :
  settled cfg e w uid c ->
  let r := fst (detect_and_dispatch cfg text uid c rt (pronoun_lead c rt) e w) in
  r.(success) = true /\ r.(res_text) = rt /\
  r.(response_type) <> Some (py "confirmation_needed").
Proof.
  intros Hs. rewrite (detect_and_dispatch_settled _ _ _ _ _ _ _ _ Hs). cbv zeta.
  destruct (_needs_confirmation _) eqn:En.
  - cbn [fst success res_text response_type simple_response].
    rewrite resolved_action_text. repeat split. discriminate.
  - set (a := resolved_action c rt (pronoun_lead c rt)) in *.
    destruct (execute_action_shape cfg a uid false e _ _
                (settled_remembered cfg e w uid c a.(entities).(lead_id) Hs)) as (H1 & H2 & H3).
    unfold a in H2.
    rewrite resolved_action_text in H2.
    split; [exact H1|]. split; [exact H2|]. apply H3. right.
    apply needs_confirmation_not_create, En.
Qed.


(** X15. [process_text] never answers ["confirmation_needed"]: the
    unconfirmed branch of [CREATE_LEAD] in [_build_action_response] is
    unreachable, since a create command is always stopped by the gate
    and a pending one is only executed in confirmed mode. *)
Theorem process_text_no_unconfirmed_create cfg text uid e w :
  (fst (process_text cfg text uid e w)).(response_type) <> Some (py "confirmation_needed").
Proof.
  rewrite process_text_run.
  pose proof (get_context_settles cfg uid e w) as Hs.
  destruct (get_context cfg uid e w) as [c0 w1]. cbn [fst snd] in Hs |- *.
  cbv zeta.
  destruct (state c0), (confirmation_pending c0) as [p|];
    try (apply (detect_and_dispatch_shape cfg text uid c0 text e w1 Hs)).
  destruct (any_in _ reply_yes_words).
  - apply (execute_action_shape cfg p uid true e w1 c0 Hs). left. reflexivity.
  - destruct (any_in _ reply_no_words); [discriminate|].
    apply (detect_and_dispatch_shape cfg text uid c0 text e w1 Hs).
Qed.

Lemma confirmation_text_hint a :
  _needs_confirmation a = true -> exists pre, confirmation_text a = pre ++ confirm_hint.
Proof.
  unfold _needs_confirmation, confirmation_text. intros H.
  destruct (intent a); try discriminate; eexists; rewrite !app_assoc; reflexivity.
Qed.

(** X16. Every result of [process_text] that asks for confirmation carries a
    create, edit or delete action, and its message ends with the hint
    telling the user to answer "так" or "ні". *)
Theorem process_text_prompt_hint cfg text uid e w :
  let r := fst (process_text cfg text uid e w) in
  r.(needs_confirmation) = true ->
  exists a pre, r.(res_action) = RAct a /\
    In a.(intent) [CREATE_LEAD; EDIT_LEAD; DELETE_LEAD] /\
    r.(response) = pre ++ confirm_hint.
Proof.
  rewrite process_text_run.
  pose proof (get_context_settles cfg uid e w) as Hs.
  destruct (get_context cfg uid e w) as [c0 w1]. cbn [fst snd] in Hs |- *.
  assert (Hd : forall rt rl,
    (fst (detect_and_dispatch cfg text uid c0 rt rl e w1)).(needs_confirmation) = true ->
    exists a pre, (fst (detect_and_dispatch cfg text uid c0 rt rl e w1)).(res_action) = RAct a /\
      In a.(intent) [CREATE_LEAD; EDIT_LEAD; DELETE_LEAD] /\
      (fst (detect_and_dispatch cfg text uid c0 rt rl e w1)).(response) = pre ++ confirm_hint).
  { intros rt rl. rewrite (detect_and_dispatch_settled _ _ _ _ _ _ _ _ Hs). cbv zeta.
    destruct (_needs_confirmation _) eqn:En.
    - intros _. destruct (confirmation_text_hint _ En) as [pre Hpre].
      eexists _, pre. cbn [fst res_action response simple_response].
      split; [reflexivity|]. split; [|exact Hpre].
      revert En. unfold _needs_confirmation.
      destruct (intent _); try discriminate; intros _; cbn; tauto.
    - set (a := resolved_action c0 rt rl) in *.
      destruct (execute_action_response cfg a uid false e _ _
                  (settled_remembered cfg e w1 uid c0 a.(entities).(lead_id) Hs)) as (_ & Hn & _).
      rewrite Hn. discriminate. }
  cbv zeta.
  destruct (state c0), (confirmation_pending c0) as [p|]; try apply Hd.
  destruct (any_in _ reply_yes_words).
  - destruct (execute_action_response cfg p uid true e w1 c0 Hs) as (_ & Hn & _).
    rewrite Hn. discriminate.
  - destruct (any_in _ reply_no_words); [discriminate|]. apply Hd.
Qed.

(** ** Remembering a lead and resolving a back-reference *)






(** ** Case of the extracted search query and note *)

Lemma lower_cp_out c : c < 65 \/ 1327 < c -> lower_cp c = c.
Proof.
  intros Hc. unfold lower_cp.
  repeat match goal with |- context [if ?b then _ else _] =>
    let E := fresh in destruct b eqn:E;
    [exfalso; repeat (rewrite ?andb_true_iff, ?Z.leb_le, ?Z.eqb_eq in E;
                      match type of E with _ /\ _ => destruct E as [E ?] | _ => idtac end);
     repeat match goal with H : _ /\ _ |- _ => destruct H end; lia|] end.
  reflexivity.
Qed.

Lemma lower_cp_idem c : lower_cp (lower_cp c) = lower_cp c.
Proof.
  destruct (Z.lt_ge_cases c 65) as [Hc|Hc]; [rewrite !(lower_cp_out c) by lia; reflexivity|].
  destruct (Z.lt_ge_cases 1327 c) as [Hc'|Hc']; [rewrite !(lower_cp_out c) by lia; reflexivity|].
  assert (Hall : forallb (fun d => lower_cp (lower_cp d) =? lower_cp d)
                   (map Z.of_nat (seq 65 1263)) = true) by (vm_compute; reflexivity).
  rewrite forallb_forall in Hall.
  apply Z.eqb_eq, Hall. replace c with (Z.of_nat (Z.to_nat c)) by lia.
  apply in_map, in_seq. lia.
Qed.

Lemma lower_idem s : lower (lower s) = lower s.
Proof. unfold lower. rewrite map_map. apply map_ext. apply lower_cp_idem. Qed.

Lemma lower_fixed s : (forall c, In c s -> lower_cp c = c) -> lower s = s.
Proof.
  induction s as [|c s IH]; intros H; [reflexivity|]. unfold lower in *. cbn [map].
  rewrite (H c (or_introl eq_refl)), IH; [reflexivity|]. intros d Hd. apply H. right. exact Hd.
Qed.

Lemma In_lstrip c s : In c (lstrip s) -> In c s.
Proof.
  induction s as [|d s IH]; cbn [lstrip]; [tauto|].
  destruct (is_space d); [intros H; right; exact (IH H)|tauto].
Qed.

Lemma In_strip c s : In c (strip s) -> In c s.
Proof.
  unfold strip. intros H. apply in_rev, In_lstrip, in_rev, In_lstrip in H. exact H.
Qed.

Lemma In_remove_first c s p : In c (remove_first s p) -> In c s.
Proof.
  induction s as [|d s IH]; cbn [remove_first].
  - destruct (prefixb p []); [rewrite skipn_nil|]; tauto.
  - destruct (prefixb p (d :: s)).
    + intros H. rewrite <- (firstn_skipn (length p) (d :: s)). apply in_or_app. right. exact H.
    + intros [H|H]; [left; exact H|right; exact (IH H)].
Qed.

Lemma extract_query_chars verbs tl q c :
  extract_query verbs tl = Some q -> In c q -> In c tl.
Proof.
  induction verbs as [|v vs IH]; cbn [extract_query]; [discriminate|].
  destruct (contains tl v); [|exact IH].
  destruct (strip (remove_first tl v)) as [|x r] eqn:E; [exact IH|].
  intros Hq Hc. injection Hq as <-. rewrite <- E in Hc.
  apply In_strip, In_remove_first in Hc. exact Hc.
Qed.

Lemma lstrip_suffix s : exists pre, s = pre ++ lstrip s.
Proof.
  induction s as [|d s IH]; cbn [lstrip]; [exists []; reflexivity|].
  destruct (is_space d); [|exists []; reflexivity].
  destruct IH as [pre Hp]. exists (d :: pre). cbn [app]. rewrite <- Hp. reflexivity.
Qed.

Lemma strip_infix s : exists k1 k2, s = k1 ++ strip s ++ k2.
Proof.
  unfold strip. destruct (lstrip_suffix s) as [pre Hp].
  destruct (lstrip_suffix (rev (lstrip s))) as [pre' Hp'].
  exists pre, (rev pre'). rewrite Hp at 1. f_equal.
  set (L := lstrip (rev (lstrip s))) in *.
  transitivity (rev (rev (lstrip s))); [symmetry; apply rev_involutive|].
  rewrite Hp', rev_app_distr. reflexivity.
Qed.

Lemma extract_note_infix verbs text tl c :
  extract_note verbs text tl = Some c -> exists k1 k2, text = k1 ++ c ++ k2.
Proof.
  induction verbs as [|v vs IH]; cbn [extract_note]; [discriminate|].
  destruct (contains tl v); [|exact IH].
  destruct (strip (skipn _ text)) as [|x r] eqn:E; [discriminate|].
  intros Hc. injection Hc as <-. rewrite <- E.
  destruct (strip_infix (skipn (find_index tl v + length v) text)) as (k1 & k2 & Hk).
  exists (firstn (find_index tl v + length v) text ++ k1), k2.
  rewrite <- app_assoc, <- Hk. symmetry. apply firstn_skipn.
Qed.

(** X18. The entity extractor reads a search query from the lower-cased
    message, so the query is lower case, while a note's content is cut
    from the message as typed: it is a contiguous piece of the message,
    with its capitalisation kept. *)
Theorem extract_query_note_case text :
  let en := _extract_entities text in
  (forall q, en.(search_query) = Some q -> lower q = q) /\
  (forall c, en.(note_content) = Some c -> exists k1 k2, text = k1 ++ c ++ k2).
Proof.
  unfold _extract_entities. cbn [search_query note_content]. split.
  - intros q Hq. apply lower_fixed. intros c Hc.
    apply (extract_query_chars _ _ _ _ Hq) in Hc.
    unfold lower in Hc. apply in_map_iff in Hc as (d & <- & _). apply lower_cp_idem.
  - intros c Hc. exact (extract_note_infix _ _ _ _ Hc).
Qed.


(** X16 at a concrete input. *)
Lemma process_text_prompt_hint_witness :
  (fst (process_text (mkConfig None 120) (py "delete lead #12") 1 (mkEnv 0 AIRaises [])
          (mkWorld ∅ []))).(needs_confirmation) = true /\
  exists a pre,
    (fst (process_text (mkConfig None 120) (py "delete lead #12") 1 (mkEnv 0 AIRaises [])
            (mkWorld ∅ []))).(res_action) = RAct a /\
    In a.(intent) [CREATE_LEAD; EDIT_LEAD; DELETE_LEAD] /\
    (fst (process_text (mkConfig None 120) (py "delete lead #12") 1 (mkEnv 0 AIRaises [])
            (mkWorld ∅ []))).(response) = pre ++ confirm_hint.
Proof.
  assert (H : (fst (process_text (mkConfig None 120) (py "delete lead #12") 1
                      (mkEnv 0 AIRaises []) (mkWorld ∅ []))).(needs_confirmation) = true)
    by (vm_compute; reflexivity).
  split; [exact H|].
  exact (process_text_prompt_hint (mkConfig None 120) (py "delete lead #12") 1
           (mkEnv 0 AIRaises []) (mkWorld ∅ []) H).
Defined.
